(** * physics-worker.js: a ball bouncing inside a rotating container

    A shallow embedding of [SimSystem] (integration, collision response,
    energy-drift correction) and of the worker's message handler
    ([init] / [update] / [reset] with a reusable [Float32Array] state buffer).

    JavaScript numbers are IEEE-754 binary64 values.  The program text is
    embedded once, over an interface [JSNumber] of the numeric operations it
    uses, and read at two instances:
    - [float]: Rocq's primitive binary64 floats, the arithmetic the program
      runs with (NaN, infinities and rounding included); it evaluates;
    - [R]: exact real arithmetic, the idealisation in which the physical
      laws of the program are stated.

    The source file holds two versions of the worker.  The second one (typed
    state buffer, clamped correction, loop invariants hoisted out of the
    sub-step loop) is the one embedded in full; of the first, the sub-step
    and the energy correction are embedded as [subStep1], [correctEnergy1]
    and [update1], and [serialize] and the message handler as [serialize]
    and [onmessage1]. *)

From Stdlib Require Import ZArith List Bool Lia.
From Stdlib Require Import Reals Lra Psatz.
From Stdlib Require Import Floats.
Import ListNotations.

(** ** The numeric operations of the program *)

Class JSNumber (num : Type) : Type := {
  ofZ : Z -> num;                 (* an integer literal *)
  add : num -> num -> num;
  sub : num -> num -> num;
  mul : num -> num -> num;
  div : num -> num -> num;
  neg : num -> num;               (* unary minus *)
  sqrt : num -> num;              (* Math.sqrt *)
  ltb : num -> num -> bool;       (* a < b *)
  leb : num -> num -> bool;       (* a <= b *)
  strictEq : num -> num -> bool;  (* a === b *)
  falsy : num -> bool;            (* !a : true for 0, -0 and NaN *)
  isFinite : num -> bool;         (* Number.isFinite *)
  jsmax : num -> num -> num;      (* Math.max *)
  jsmin : num -> num -> num       (* Math.min *)
}.

Declare Scope js_scope.
Delimit Scope js_scope with js.
Notation "a + b" := (add a b) : js_scope.
Notation "a - b" := (sub a b) : js_scope.
Notation "a * b" := (mul a b) : js_scope.
Notation "a / b" := (div a b) : js_scope.
Notation "- a" := (neg a) : js_scope.
Notation "a <? b" := (ltb a b) : js_scope.
Notation "a <=? b" := (leb a b) : js_scope.
Notation "a >? b" := (ltb b a) : js_scope.
Notation "a >=? b" := (leb b a) : js_scope.
Notation "a !== b" := (negb (strictEq a b)) (at level 70) : js_scope.

(** A decimal literal [m / p] with [p] a power of ten, such as [0.02] =
    [decimal 2 100].  At [float] the quotient of two exactly represented
    integers is correctly rounded, which is the value of the literal. *)
Definition decimal {num} `{JSNumber num} (m p : Z) : num :=
  (ofZ m / ofZ p)%js.

(** ** Data model *)

(** The first version also gives the ball a field [history: []], which no
    code reads. *)
Module Ball.
Record t (num : Type) : Type := mk {
  x : num; y : num;
  vx : num; vy : num;
  angle : num; angularVelocity : num;
  radius : num; mass : num; inertia : num
}.
Arguments mk {num}.
Arguments x {num}.
Arguments y {num}.
Arguments vx {num}.
Arguments vy {num}.
Arguments angle {num}.
Arguments angularVelocity {num}.
Arguments radius {num}.
Arguments mass {num}.
Arguments inertia {num}.
End Ball.

Module Container.
Record t (num : Type) : Type := mk {
  angle : num; angularVelocity : num;
  radius : num; mass : num; inertia : num
}.
Arguments mk {num}.
Arguments angle {num}.
Arguments angularVelocity {num}.
Arguments radius {num}.
Arguments mass {num}.
Arguments inertia {num}.
End Container.

Record SimSystem (num : Type) : Type := mkSimSystem {
  id : num;
  ball : Ball.t num;
  container : Container.t num;
  initialEnergy : num
}.
Arguments mkSimSystem {num}.
Arguments id {num}.
Arguments ball {num}.
Arguments container {num}.
Arguments initialEnergy {num}.

(** The object returned by [calculateEnergy]. *)
Record Stats (num : Type) : Type := mkStats { total : num; pe : num }.
Arguments mkStats {num}.
Arguments total {num}.
Arguments pe {num}.

(** The values hoisted out of the sub-step loop of [update]. *)
Record Hoisted (num : Type) : Type := mkHoisted {
  subDt : num; gravitySubDt : num;
  rB : num; rC : num;
  maxDist : num; maxDistSq : num;
  invMass : num; invInertiaB : num; invInertiaC : num;
  effMass : num
}.
Arguments mkHoisted {num}.
Arguments subDt {num}.
Arguments gravitySubDt {num}.
Arguments rB {num}.
Arguments rC {num}.
Arguments maxDist {num}.
Arguments maxDistSq {num}.
Arguments invMass {num}.
Arguments invInertiaB {num}.
Arguments invInertiaC {num}.
Arguments effMass {num}.

(** ** SimSystem *)

Section Physics.
Context {num : Type} `{JSNumber num}.
Local Open Scope js_scope.

(** *** Physics constants *)
Definition SUB_STEPS : nat := 16.
Definition GRAVITY : num := decimal 981 100 * ofZ 100.
Definition CONTAINER_RADIUS : num := ofZ 300.
Definition BALL_RADIUS : num := ofZ 30.
Definition BALL_MASS : num := ofZ 10.
Definition CONTAINER_MASS : num := ofZ 200.
Definition RESTITUTION_NORMAL : num := ofZ 1.
Definition RESTITUTION_TANGENT : num := ofZ 1.
Definition NUM_SYSTEMS : num := ofZ 64.

(** *** calculateEnergy *)
Definition calculateEnergy (s : SimSystem num) : Stats num :=
  let b := ball s in
  let c := container s in
  let v2 := Ball.vx b * Ball.vx b + Ball.vy b * Ball.vy b in
  let keLin := decimal 5 10 * Ball.mass b * v2 in
  let keRotB := decimal 5 10 * Ball.inertia b
                * (Ball.angularVelocity b * Ball.angularVelocity b) in
  let keRotC := decimal 5 10 * Container.inertia c
                * (Container.angularVelocity c * Container.angularVelocity c) in
  let pe := - Ball.mass b * GRAVITY * Ball.y b in
  {| total := keLin + keRotB + keRotC + pe; pe := pe |}.

(** *** reset
    Every field of [ball] and [container] is overwritten; [id] is kept. *)
Definition reset (i : num) (s : SimSystem num) : SimSystem num :=
  let offset := (i / NUM_SYSTEMS * decimal 2 100) - decimal 1 100 in
  let b := {| Ball.x := ofZ 1 + offset;
              Ball.y := - ofZ 220;
              Ball.vx := ofZ 0; Ball.vy := ofZ 0;
              Ball.angle := ofZ 0; Ball.angularVelocity := ofZ 0;
              Ball.radius := BALL_RADIUS; Ball.mass := BALL_MASS;
              Ball.inertia := decimal 5 10 * BALL_MASS
                              * (BALL_RADIUS * BALL_RADIUS) |} in
  let c := {| Container.angle := ofZ 0;
              Container.angularVelocity := ofZ 0;
              Container.radius := CONTAINER_RADIUS;
              Container.mass := CONTAINER_MASS;
              Container.inertia := CONTAINER_MASS
                                   * (CONTAINER_RADIUS * CONTAINER_RADIUS) |} in
  let s' := {| id := id s; ball := b; container := c;
               initialEnergy := initialEnergy s |} in
  {| id := id s; ball := b; container := c;
     initialEnergy := total (calculateEnergy s') |}.

(** The constructor: [this.ball = {}], [this.container = {}],
    [this.initialEnergy = 0], then [this.reset(id)].  The fields of the
    empty objects are never read before [reset] overwrites them; they
    stand as [0] here. *)
Definition emptyBall : Ball.t num :=
  Ball.mk (ofZ 0) (ofZ 0) (ofZ 0) (ofZ 0) (ofZ 0) (ofZ 0) (ofZ 0) (ofZ 0) (ofZ 0).
Definition emptyContainer : Container.t num :=
  Container.mk (ofZ 0) (ofZ 0) (ofZ 0) (ofZ 0) (ofZ 0).
Definition newSimSystem (i : num) : SimSystem num :=
  reset i {| id := i; ball := emptyBall; container := emptyContainer;
             initialEnergy := ofZ 0 |}.

(** *** The sub-step: integration *)
Definition integrate (h g : num) (s : SimSystem num) : SimSystem num :=
  let b := ball s in
  let c := container s in
  let vy1 := Ball.vy b + g in
  let x1 := Ball.x b + Ball.vx b * h in
  let y1 := Ball.y b + vy1 * h in
  let angle1 := Ball.angle b + Ball.angularVelocity b * h in
  let cangle1 := Container.angle c + Container.angularVelocity c * h in
  {| id := id s;
     ball := {| Ball.x := x1; Ball.y := y1;
                Ball.vx := Ball.vx b; Ball.vy := vy1;
                Ball.angle := angle1;
                Ball.angularVelocity := Ball.angularVelocity b;
                Ball.radius := Ball.radius b; Ball.mass := Ball.mass b;
                Ball.inertia := Ball.inertia b |};
     container := {| Container.angle := cangle1;
                     Container.angularVelocity := Container.angularVelocity c;
                     Container.radius := Container.radius c;
                     Container.mass := Container.mass c;
                     Container.inertia := Container.inertia c |};
     initialEnergy := initialEnergy s |}.

(** Field updates used by the collision code. *)
Definition setPos (x1 y1 : num) (s : SimSystem num) : SimSystem num :=
  let b := ball s in
  {| id := id s;
     ball := {| Ball.x := x1; Ball.y := y1;
                Ball.vx := Ball.vx b; Ball.vy := Ball.vy b;
                Ball.angle := Ball.angle b;
                Ball.angularVelocity := Ball.angularVelocity b;
                Ball.radius := Ball.radius b; Ball.mass := Ball.mass b;
                Ball.inertia := Ball.inertia b |};
     container := container s;
     initialEnergy := initialEnergy s |}.

Definition setVel (vx1 vy1 w1 cw1 : num) (s : SimSystem num) : SimSystem num :=
  let b := ball s in
  let c := container s in
  {| id := id s;
     ball := {| Ball.x := Ball.x b; Ball.y := Ball.y b;
                Ball.vx := vx1; Ball.vy := vy1;
                Ball.angle := Ball.angle b;
                Ball.angularVelocity := w1;
                Ball.radius := Ball.radius b; Ball.mass := Ball.mass b;
                Ball.inertia := Ball.inertia b |};
     container := {| Container.angle := Container.angle c;
                     Container.angularVelocity := cw1;
                     Container.radius := Container.radius c;
                     Container.mass := Container.mass c;
                     Container.inertia := Container.inertia c |};
     initialEnergy := initialEnergy s |}.

(** *** The sub-step: collision, first version of [update] *)
Definition collide1 (s : SimSystem num) : SimSystem num :=
  let b := ball s in
  let c := container s in
  let distSq := Ball.x b * Ball.x b + Ball.y b * Ball.y b in
  let dist := sqrt distSq in
  let maxDist := Container.radius c - Ball.radius b in
  if dist >=? maxDist then
    let nx := Ball.x b / dist in
    let ny := Ball.y b / dist in
    (* Fix Penetration *)
    let pen := dist - maxDist in
    let s1 := setPos (Ball.x b - nx * pen) (Ball.y b - ny * pen) s in
    (* Tangent *)
    let tx := - ny in
    let ty := nx in
    (* Velocities *)
    let vn := Ball.vx b * nx + Ball.vy b * ny in
    let vt_ball_surf := (Ball.vx b * tx + Ball.vy b * ty)
                        + Ball.angularVelocity b * Ball.radius b in
    let vt_wall_surf := Container.angularVelocity c * Container.radius c in
    let v_rel_tan := vt_ball_surf - vt_wall_surf in
    if vn >? ofZ 0 then
      (* Normal Impulse *)
      let jn := - (ofZ 1 + RESTITUTION_NORMAL) * vn * Ball.mass b in
      let vx1 := Ball.vx b + (jn * nx) / Ball.mass b in
      let vy1 := Ball.vy b + (jn * ny) / Ball.mass b in
      (* Tangent Impulse *)
      let invM := ofZ 1 / Ball.mass b in
      let invIb := (Ball.radius b * Ball.radius b) / Ball.inertia b in
      let invIw := (Container.radius c * Container.radius c)
                   / Container.inertia c in
      let effMass := ofZ 1 / (invM + invIb + invIw) in
      let jt := - (ofZ 1 + RESTITUTION_TANGENT) * v_rel_tan * effMass in
      (* Apply *)
      setVel (vx1 + (jt * tx) / Ball.mass b)
             (vy1 + (jt * ty) / Ball.mass b)
             (Ball.angularVelocity b + (jt * Ball.radius b) / Ball.inertia b)
             (Container.angularVelocity c
              - (jt * Container.radius c) / Container.inertia c)
             s1
    else s1
  else s.

Definition subStep1 (h : num) (s : SimSystem num) : SimSystem num :=
  collide1 (integrate h (GRAVITY * h) s).

(** *** The sub-step: collision, second version of [update] *)
Definition hoisted (h : num) (s : SimSystem num) : Hoisted num :=
  let b := ball s in
  let c := container s in
  let rB := Ball.radius b in
  let rC := Container.radius c in
  let maxDist := rC - rB in
  let invMass := ofZ 1 / Ball.mass b in
  let invInertiaB := ofZ 1 / Ball.inertia b in
  let invInertiaC := ofZ 1 / Container.inertia c in
  (* Effective mass for tangential impulse (constant for this system) *)
  let invM := invMass in
  let invIb := (rB * rB) * invInertiaB in
  let invIw := (rC * rC) * invInertiaC in
  {| subDt := h; gravitySubDt := GRAVITY * h;
     rB := rB; rC := rC;
     maxDist := maxDist; maxDistSq := maxDist * maxDist;
     invMass := invMass; invInertiaB := invInertiaB;
     invInertiaC := invInertiaC;
     effMass := ofZ 1 / (invM + invIb + invIw) |}.

Definition collide2 (k : Hoisted num) (s : SimSystem num) : SimSystem num :=
  let b := ball s in
  let c := container s in
  let x := Ball.x b in
  let y := Ball.y b in
  let distSq := x * x + y * y in
  (* Avoid sqrt unless we might be colliding. *)
  if distSq >=? maxDistSq k then
    let dist := sqrt distSq in
    if dist <=? ofZ 0 then s (* continue *)
    else
      let invDist := ofZ 1 / dist in
      let nx := x * invDist in
      let ny := y * invDist in
      (* Fix penetration (only if needed) *)
      let pen := dist - maxDist k in
      let s1 := if pen >? ofZ 0
                then setPos (Ball.x b - nx * pen) (Ball.y b - ny * pen) s
                else s in
      (* Tangent *)
      let tx := - ny in
      let ty := nx in
      (* Normal velocity *)
      let vn := Ball.vx b * nx + Ball.vy b * ny in
      if vn >? ofZ 0 then
        (* Normal impulse: j/m simplifies to -(1+e)*vn *)
        let impulseN := - (ofZ 1 + RESTITUTION_NORMAL) * vn in
        let vx1 := Ball.vx b + impulseN * nx in
        let vy1 := Ball.vy b + impulseN * ny in
        (* Tangential relative velocity at contact *)
        let vtBallSurf := (vx1 * tx + vy1 * ty)
                          + (Ball.angularVelocity b * rB k) in
        let vtWallSurf := Container.angularVelocity c * rC k in
        let vRelTan := vtBallSurf - vtWallSurf in
        (* Tangential impulse *)
        let jt := - (ofZ 1 + RESTITUTION_TANGENT) * vRelTan * effMass k in
        (* Apply *)
        let jtInvMass := jt * invMass k in
        setVel (vx1 + jtInvMass * tx)
               (vy1 + jtInvMass * ty)
               (Ball.angularVelocity b + jt * rB k * invInertiaB k)
               (Container.angularVelocity c - jt * rC k * invInertiaC k)
               s1
      else s1
  else s.

Definition subStep2 (k : Hoisted num) (s : SimSystem num) : SimSystem num :=
  collide2 k (integrate (subDt k) (gravitySubDt k) s).

(** *** correctEnergy *)
Definition scaleVelocities (scale : num) (s : SimSystem num) : SimSystem num :=
  setVel (Ball.vx (ball s) * scale)
         (Ball.vy (ball s) * scale)
         (Ball.angularVelocity (ball s) * scale)
         (Container.angularVelocity (container s) * scale)
         s.

(** Second version: [scale = Math.sqrt(targetKE / currentKE)] followed by
    [scale = Math.max(0.99, Math.min(1.01, scale))]. *)
Definition clampedScale (targetKE currentKE : num) : num :=
  let scale := sqrt (targetKE / currentKE) in
  jsmax (decimal 99 100) (jsmin (decimal 101 100) scale).

Definition correctEnergy (stats : Stats num) (s : SimSystem num)
  : SimSystem num * num :=
  if falsy (initialEnergy s) || (initialEnergy s <? decimal 1 1000000)
  then (s, total stats)
  else
    let currentKE := total stats - pe stats in
    let targetKE := initialEnergy s - pe stats in
    if (targetKE >? decimal 1 1000000) && (currentKE >? decimal 1 1000000)
    then
      let scale := clampedScale targetKE currentKE in
      (* Safety check for NaN/Infinity *)
      if negb (isFinite scale) then (s, total stats)
      else
        let s1 := if scale !== ofZ 1 then scaleVelocities scale s else s in
        (s1, pe stats + currentKE * scale * scale)
    else (s, total stats).

(** First version: no clamp, a tenth of the required change, no result. *)
Definition correctEnergy1 (s : SimSystem num) : SimSystem num :=
  if falsy (initialEnergy s) || (initialEnergy s <? decimal 1 1000000)
  then s
  else
    let stats := calculateEnergy s in
    let currentKE := total stats - pe stats in
    let targetKE := initialEnergy s - pe stats in
    if (targetKE >? decimal 1 1000000) && (currentKE >? decimal 1 1000000)
    then
      let reqScale := sqrt (targetKE / currentKE) in
      let smoothScale := ofZ 1 + (reqScale - ofZ 1) * decimal 1 10 in
      scaleVelocities smoothScale s
    else s.

(** *** update *)
Definition update1 (dt : num) (s : SimSystem num) : SimSystem num :=
  let subDt := dt / ofZ (Z.of_nat SUB_STEPS) in
  correctEnergy1 (Nat.iter SUB_STEPS (subStep1 subDt) s).

Definition update (dt : num) (s : SimSystem num) : SimSystem num * num :=
  let subDt := dt / ofZ (Z.of_nat SUB_STEPS) in
  let k := hoisted subDt s in
  let s1 := Nat.iter SUB_STEPS (subStep2 k) s in
  let stats := calculateEnergy s1 in
  correctEnergy stats s1.
End Physics.

(** ** States of a system *)

Section States.
Context {num : Type} `{JSNumber num}.
Local Open Scope js_scope.

(** The states a system can be in: built by the constructor, then any
    sequence of [reset] and [update] calls (the only calls the worker
    makes). *)
Inductive reachable : SimSystem num -> Prop :=
| reach_new (i : num) : reachable (newSimSystem i)
| reach_reset (s : SimSystem num) :
    reachable s -> reachable (reset (id s) s)
| reach_update (dt : num) (s : SimSystem num) :
    reachable s -> reachable (fst (update dt s)).

(** The fields that no method assigns after [reset]. *)
Definition constantsSet (s : SimSystem num) : Prop :=
  Ball.radius (ball s) = BALL_RADIUS /\
  Ball.mass (ball s) = BALL_MASS /\
  Ball.inertia (ball s) = decimal 5 10 * BALL_MASS * (BALL_RADIUS * BALL_RADIUS) /\
  Container.radius (container s) = CONTAINER_RADIUS /\
  Container.mass (container s) = CONTAINER_MASS /\
  Container.inertia (container s)
  = CONTAINER_MASS * (CONTAINER_RADIUS * CONTAINER_RADIUS).

(** The start configuration that [reset(i)] writes. *)
Definition startsAt (i : num) (s : SimSystem num) : Prop :=
  Ball.x (ball s)
  = ofZ 1 + ((i / NUM_SYSTEMS * decimal 2 100) - decimal 1 100) /\
  Ball.y (ball s) = - ofZ 220 /\
  Ball.vx (ball s) = ofZ 0 /\ Ball.vy (ball s) = ofZ 0 /\
  Ball.angle (ball s) = ofZ 0 /\ Ball.angularVelocity (ball s) = ofZ 0 /\
  Container.angle (container s) = ofZ 0 /\
  Container.angularVelocity (container s) = ofZ 0.
End States.

(** ** The worker: state buffer and message handler *)

(** [Math.fround]: the conversion applied by a store into a [Float32Array]. *)
Class Float32 (num : Type) : Type := { fround : num -> num }.

(** An [ArrayBuffer]: the identity of the object and its contents, held as
    the 32-bit float slots a [Float32Array] view reads (4 bytes each),
    followed by 0 to 3 spare bytes that such a view does not cover. *)
Inductive Spare : Type := Spare0 | Spare1 | Spare2 | Spare3.

Definition spareBytes (p : Spare) : nat :=
  match p with Spare0 => 0 | Spare1 => 1 | Spare2 => 2 | Spare3 => 3 end.

Definition spareOf (n : nat) : Spare :=
  match Nat.modulo n 4 with
  | 0 => Spare0 | 1 => Spare1 | 2 => Spare2 | _ => Spare3
  end.

Record ArrayBuffer (num : Type) : Type := mkArrayBuffer {
  ref : nat;
  f32 : list num;
  spare : Spare
}.
Arguments mkArrayBuffer {num}.
Arguments ref {num}.
Arguments f32 {num}.
Arguments spare {num}.

Definition byteLength {num} (b : ArrayBuffer num) : nat :=
  4 * length (f32 b) + spareBytes (spare b).

(** [e.data].  [buffer] is [None] when [msg.buffer] is missing or is not an
    [ArrayBuffer]; [systemIds] is [[]] when the message carries none; a
    message without [dt] is one with [dt = NaN] (what [undefined] becomes in
    the arithmetic of [update]).  [MsgOther] is any other [type]. *)
Inductive Message (num : Type) : Type :=
| MsgInit (systemIds : list num)
| MsgUpdate (dt : num) (batchId : nat) (buffer : option (ArrayBuffer num))
| MsgReset (batchId : nat) (buffer : option (ArrayBuffer num))
| MsgOther.
Arguments MsgInit {num}.
Arguments MsgUpdate {num}.
Arguments MsgReset {num}.
Arguments MsgOther {num}.

(** The argument of [self.postMessage]. *)
Inductive Reply (num : Type) : Type :=
| RInitialized
| RUpdated (batchId : nat) (buffer : ArrayBuffer num) (totalEnergy : num)
| RReset (batchId : nat) (buffer : ArrayBuffer num) (totalEnergy : num).
Arguments RInitialized {num}.
Arguments RUpdated {num}.
Arguments RReset {num}.

(** Worker state: the module variables [systems] and [systemIds], and the
    next fresh object identity of the allocator. *)
Record Worker (num : Type) : Type := mkWorker {
  systems : list (SimSystem num);
  systemIds : list num;
  nextRef : nat
}.
Arguments mkWorker {num}.
Arguments systems {num}.
Arguments systemIds {num}.
Arguments nextRef {num}.

Section Controller.
Context {num : Type} `{JSNumber num} `{Float32 num}.
Local Open Scope js_scope.

Definition STATE_STRIDE : nat := 4. (* ballX, ballY, ballAngle, containerAngle *)

(** [new ArrayBuffer(n)]: a fresh, zero-filled object. *)
Definition newArrayBuffer (r n : nat) : ArrayBuffer num :=
  {| ref := r; f32 := repeat (ofZ 0) (Nat.div n 4); spare := spareOf n |}.

(** [out[k] = v] on a [Float32Array]: the value is rounded to 32 bits; a
    store past the end is ignored. *)
Fixpoint store (out : list num) (k : nat) (v : num) : list num :=
  match out, k with
  | [], _ => []
  | _ :: t, O => fround v :: t
  | a :: t, S k' => a :: store t k' v
  end.

(** [let buffer = msg.buffer; if (!(buffer instanceof ArrayBuffer) ||
    buffer.byteLength !== expectedFloats * 4) buffer = new ArrayBuffer(...)].
    Returns the buffer and the allocator's next identity. *)
Definition acquireBuffer (given : option (ArrayBuffer num))
           (expectedFloats : nat) (next : nat) : ArrayBuffer num * nat :=
  match given with
  | Some buffer =>
      if negb (Nat.eqb (byteLength buffer) (expectedFloats * 4))
      then (newArrayBuffer next (expectedFloats * 4), S next)
      else (buffer, next)
  | None => (newArrayBuffer next (expectedFloats * 4), S next)
  end.

Definition writeState (out : list num) (i : nat) (s : SimSystem num)
  : list num :=
  let base := (i * STATE_STRIDE)%nat in
  let out := store out base (Ball.x (ball s)) in
  let out := store out (base + 1) (Ball.y (ball s)) in
  let out := store out (base + 2) (Ball.angle (ball s)) in
  store out (base + 3) (Container.angle (container s)).

(** The loop of the [update] case, from index [i] on. *)
Fixpoint updateLoop (dt : num) (i : nat) (rest : list (SimSystem num))
         (out : list num) (totalEnergy : num)
  : list (SimSystem num) * list num * num :=
  match rest with
  | [] => ([], out, totalEnergy)
  | s :: rest' =>
      let (s1, e) := update dt s in
      let totalEnergy := totalEnergy + e in
      let out := writeState out i s1 in
      let '(ss, out, totalEnergy) :=
        updateLoop dt (S i) rest' out totalEnergy in
      (s1 :: ss, out, totalEnergy)
  end.

(** The loop of the [reset] case, from index [i] on. *)
Fixpoint resetLoop (i : nat) (rest : list (SimSystem num))
         (out : list num) (totalEnergy : num)
  : list (SimSystem num) * list num * num :=
  match rest with
  | [] => ([], out, totalEnergy)
  | s :: rest' =>
      let s1 := reset (id s) s in
      let totalEnergy := totalEnergy + initialEnergy s1 in
      let out := writeState out i s1 in
      let '(ss, out, totalEnergy) :=
        resetLoop (S i) rest' out totalEnergy in
      (s1 :: ss, out, totalEnergy)
  end.

(** [self.onmessage]: the new worker state and the message posted, if any. *)
Definition onmessage (msg : Message num) (w : Worker num)
  : Worker num * option (Reply num) :=
  match msg with
  | MsgInit ids =>
      ({| systems := map newSimSystem ids; systemIds := ids;
          nextRef := nextRef w |},
       Some RInitialized)
  | MsgUpdate dt batchId given =>
      let expectedFloats := (length (systems w) * STATE_STRIDE)%nat in
      let (buffer, next) := acquireBuffer given expectedFloats (nextRef w) in
      let '(ss, out, totalEnergy) :=
        updateLoop dt 0 (systems w) (f32 buffer) (ofZ 0) in
      ({| systems := ss; systemIds := systemIds w; nextRef := next |},
       Some (RUpdated batchId
               {| ref := ref buffer; f32 := out; spare := spare buffer |}
               totalEnergy))
  | MsgReset batchId given =>
      let expectedFloats := (length (systems w) * STATE_STRIDE)%nat in
      let (buffer, next) := acquireBuffer given expectedFloats (nextRef w) in
      let '(ss, out, totalEnergy) :=
        resetLoop 0 (systems w) (f32 buffer) (ofZ 0) in
      ({| systems := ss; systemIds := systemIds w; nextRef := next |},
       Some (RReset batchId
               {| ref := ref buffer; f32 := out; spare := spare buffer |}
               totalEnergy))
  | MsgOther => (w, None)
  end.

(** The module's initial state: [let systems = []; let systemIds = []]. *)
Definition initialWorker : Worker num :=
  {| systems := []; systemIds := []; nextRef := 0 |}.

(** The four slots of a system as the buffer holds them, and the whole
    buffer of a list of systems in shard order. *)
Definition slots (s : SimSystem num) : list num :=
  [ fround (Ball.x (ball s)); fround (Ball.y (ball s));
    fround (Ball.angle (ball s)); fround (Container.angle (container s)) ].

Definition layout (ss : list (SimSystem num)) : list num :=
  flat_map slots ss.

(** How the buffer [out] of a reply relates to the buffer the message
    carried: the same object when the byte length fits (nothing is
    allocated), otherwise the object that [new ArrayBuffer] creates. *)
Definition reusedOrFresh (given : option (ArrayBuffer num))
           (w w' : Worker num) (out : ArrayBuffer num) : Prop :=
  match given with
  | Some g =>
      if Nat.eqb (byteLength g) (4 * length (systems w) * 4)
      then ref out = ref g /\ nextRef w' = nextRef w
      else ref out = nextRef w /\ nextRef w' = S (nextRef w)
  | None => ref out = nextRef w /\ nextRef w' = S (nextRef w)
  end.
End Controller.

(** ** The first version of the worker: [serialize] and the message handler *)

(** The object that [serialize] builds. *)
Module SerializedBall.
Record t (num : Type) : Type := mk {
  x : num; y : num; angle : num;
  vx : num; vy : num; angularVelocity : num
}.
Arguments mk {num}.
Arguments x {num}.
Arguments y {num}.
Arguments angle {num}.
Arguments vx {num}.
Arguments vy {num}.
Arguments angularVelocity {num}.
End SerializedBall.

Module SerializedContainer.
Record t (num : Type) : Type := mk { angle : num; angularVelocity : num }.
Arguments mk {num}.
Arguments angle {num}.
Arguments angularVelocity {num}.
End SerializedContainer.

Module Serialized.
Record t (num : Type) : Type := mk {
  id : num;
  ball : SerializedBall.t num;
  container : SerializedContainer.t num;
  initialEnergy : num
}.
Arguments mk {num}.
Arguments id {num}.
Arguments ball {num}.
Arguments container {num}.
Arguments initialEnergy {num}.
End Serialized.

(** [e.data] of the first version, [{ type, data }].  The argument is [None]
    when [data] is missing (for [init] also when [data.systemIds] is): the
    handler then reads a property of [undefined].  A [data] without [dt] is
    one with [dt = NaN]. *)
Inductive Message1 (num : Type) : Type :=
| Msg1Init (systemIds : option (list num))
| Msg1Update (dt : option num)
| Msg1Reset
| Msg1Other.
Arguments Msg1Init {num}.
Arguments Msg1Update {num}.
Arguments Msg1Reset {num}.
Arguments Msg1Other {num}.

Inductive Reply1 (num : Type) : Type :=
| R1Initialized
| R1Updated (states : list (Serialized.t num)) (totalEnergy : num)
| R1Reset (states : list (Serialized.t num)) (totalEnergy : num).
Arguments R1Initialized {num}.
Arguments R1Updated {num}.
Arguments R1Reset {num}.

(** What a call of the handler ends in: a message posted, nothing, or an
    uncaught [TypeError]. *)
Inductive Outcome1 (num : Type) : Type :=
| Posted1 (reply : Reply1 num)
| Silent1
| TypeError1.
Arguments Posted1 {num}.
Arguments Silent1 {num}.
Arguments TypeError1 {num}.

Section FirstController.
Context {num : Type} `{JSNumber num}.
Local Open Scope js_scope.

Definition serialize (s : SimSystem num) : Serialized.t num :=
  {| Serialized.id := id s;
     Serialized.ball :=
       {| SerializedBall.x := Ball.x (ball s);
          SerializedBall.y := Ball.y (ball s);
          SerializedBall.angle := Ball.angle (ball s);
          SerializedBall.vx := Ball.vx (ball s);
          SerializedBall.vy := Ball.vy (ball s);
          SerializedBall.angularVelocity := Ball.angularVelocity (ball s) |};
     Serialized.container :=
       {| SerializedContainer.angle := Container.angle (container s);
          SerializedContainer.angularVelocity :=
            Container.angularVelocity (container s) |};
     Serialized.initialEnergy := initialEnergy s |}.

(** [systems.reduce((sum, s) => sum + s.calculateEnergy().total, 0)]. *)
Definition sumEnergy (ss : list (SimSystem num)) : num :=
  fold_left (fun sum s => sum + total (calculateEnergy s)) ss (ofZ 0).

(** [self.onmessage] of the first version, on the module variable
    [systems]: the new value of the variable and the outcome. *)
Definition onmessage1 (msg : Message1 num) (systems : list (SimSystem num))
  : list (SimSystem num) * Outcome1 num :=
  match msg with
  | Msg1Init None => (systems, TypeError1)
  | Msg1Init (Some ids) => (map newSimSystem ids, Posted1 R1Initialized)
  | Msg1Update None => (systems, TypeError1)
  | Msg1Update (Some dt) =>
      let systems := map (update1 dt) systems in
      (systems, Posted1 (R1Updated (map serialize systems) (sumEnergy systems)))
  | Msg1Reset =>
      let systems := map (fun s => reset (id s) s) systems in
      (systems, Posted1 (R1Reset (map serialize systems) (sumEnergy systems)))
  | Msg1Other => (systems, Silent1)
  end.

(** The four values of a serialized state that the second version puts
    into its buffer. *)
Definition compact `{Float32 num} (st : Serialized.t num) : list num :=
  [ fround (SerializedBall.x (Serialized.ball st));
    fround (SerializedBall.y (Serialized.ball st));
    fround (SerializedBall.angle (Serialized.ball st));
    fround (SerializedContainer.angle (Serialized.container st)) ].
End FirstController.

(** ** A worker over the messages it receives *)

Section Runs.
Context {num : Type} `{JSNumber num} `{Float32 num}.

(** The worker handles its messages one at a time, in the order they
    arrive. *)
Definition run (msgs : list (Message num)) (w : Worker num) : Worker num :=
  fold_left (fun w msg => fst (onmessage msg w)) msgs w.

(** The ids that the last [init] message of a sequence carries; none when
    the sequence has no [init]. *)
Definition lastInit (msgs : list (Message num)) : list num :=
  fold_left (fun ids msg => match msg with
                            | MsgInit ids' => ids'
                            | _ => ids
                            end) msgs [].

(** The ids of the systems are the ids of the last [init], in order, and
    every system is in a state that the constructor, [update] and [reset]
    lead to. *)
Definition coherent (w : Worker num) : Prop :=
  map id (systems w) = systemIds w /\ Forall reachable (systems w).
End Runs.

(** ** The two readings of the numbers *)

(** *** binary64 *)
Module F64.
Definition ofZ (z : Z) : float :=
  match z with
  | Z0 => PrimFloat.zero
  | Zpos _ => PrimFloat.of_uint63 (Uint63.of_Z z)
  | Zneg p => PrimFloat.opp (PrimFloat.of_uint63 (Uint63.of_Z (Zpos p)))
  end.

Definition falsy (a : float) : bool :=
  PrimFloat.is_zero a || PrimFloat.is_nan a.

(** [Math.max] and [Math.min]: NaN if an argument is NaN; [-0 < +0]. *)
Definition max (a b : float) : float :=
  if PrimFloat.is_nan a || PrimFloat.is_nan b then PrimFloat.nan
  else if PrimFloat.ltb a b then b
  else if PrimFloat.ltb b a then a
  else if PrimFloat.get_sign a then b else a.

Definition min (a b : float) : float :=
  if PrimFloat.is_nan a || PrimFloat.is_nan b then PrimFloat.nan
  else if PrimFloat.ltb a b then a
  else if PrimFloat.ltb b a then b
  else if PrimFloat.get_sign a then a else b.

(** Rounding to binary32 (24 bits of precision, [emax = 128]), to nearest,
    ties to even; the result is again held as a binary64 value. *)
Definition fround (a : float) : float :=
  match Prim2SF a with
  | S754_finite sg m e => SF2Prim (binary_round 24 128 sg m e)
  | _ => a
  end.

(** The exact value of a finite float, [m * 2^e]. *)
Definition dyadic (a : float) : option (Z * Z) :=
  match Prim2SF a with
  | S754_zero _ => Some (0, 0)%Z
  | S754_finite sg m e => Some (if sg then Zneg m else Zpos m, e)
  | _ => None
  end.

(** [x*x + y*y > r*r] decided on the exact values of [x] and [y]. *)
Definition outsideCircle (x y : float) (r : Z) : bool :=
  match dyadic x, dyadic y with
  | Some (mx, ex), Some (my, ey) =>
      let e := Z.min (Z.min ex ey) 0 in
      let X := (mx * 2 ^ (ex - e))%Z in
      let Y := (my * 2 ^ (ey - e))%Z in
      (r * r * 2 ^ (- (2 * e)) <? X * X + Y * Y)%Z
  | _, _ => false
  end.
End F64.

#[export] Instance float_JSNumber : JSNumber float := {
  ofZ := F64.ofZ;
  add := PrimFloat.add;
  sub := PrimFloat.sub;
  mul := PrimFloat.mul;
  div := PrimFloat.div;
  neg := PrimFloat.opp;
  sqrt := PrimFloat.sqrt;
  ltb := PrimFloat.ltb;
  leb := PrimFloat.leb;
  strictEq := PrimFloat.eqb;
  falsy := F64.falsy;
  isFinite := PrimFloat.is_finite;
  jsmax := F64.max;
  jsmin := F64.min
}.

#[export] Instance float_Float32 : Float32 float := { fround := F64.fround }.

(** *** exact real arithmetic *)
Module Exact.
Definition ltb (a b : R) : bool := if Rlt_dec a b then true else false.
Definition leb (a b : R) : bool := if Rle_dec a b then true else false.
Definition eqb (a b : R) : bool := if Req_dec_T a b then true else false.
End Exact.

#[export] Instance R_JSNumber : JSNumber R := {
  ofZ := IZR;
  add := Rplus;
  sub := Rminus;
  mul := Rmult;
  div := Rdiv;
  neg := Ropp;
  sqrt := R_sqrt.sqrt;
  ltb := Exact.ltb;
  leb := Exact.leb;
  strictEq := Exact.eqb;
  falsy := fun a => Exact.eqb a 0%R;
  isFinite := fun _ => true;
  jsmax := Rmax;
  jsmin := Rmin
}.

(** Kinetic energy, as [correctEnergy] takes it from [calculateEnergy]. *)
Definition kinetic (s : SimSystem R) : R :=
  (total (calculateEnergy s) - pe (calculateEnergy s))%R.

(** The collision normal of [update], in exact arithmetic: the direction
    from the container centre to the ball ([nx] and [ny]). *)
Definition normalX (s : SimSystem R) : R :=
  (Ball.x (ball s)
   / R_sqrt.sqrt (Ball.x (ball s) * Ball.x (ball s)
                  + Ball.y (ball s) * Ball.y (ball s)))%R.

Definition normalY (s : SimSystem R) : R :=
  (Ball.y (ball s)
   / R_sqrt.sqrt (Ball.x (ball s) * Ball.x (ball s)
                  + Ball.y (ball s) * Ball.y (ball s)))%R.

(** The velocity of the ball along a unit vector [(nx, ny)], and the
    sliding velocity of the ball's surface against the wall at the contact
    point in that direction ([vn] and [vRelTan] in [update]). *)
Definition normalVelocity (nx ny : R) (s : SimSystem R) : R :=
  (Ball.vx (ball s) * nx + Ball.vy (ball s) * ny)%R.

Definition slipVelocity (nx ny : R) (s : SimSystem R) : R :=
  ((Ball.vx (ball s) * (- ny) + Ball.vy (ball s) * nx)
   + Ball.angularVelocity (ball s) * Ball.radius (ball s)
   - Container.angularVelocity (container s) * Container.radius (container s))%R.

(** Angular momentum about the container centre: the ball's orbital part
    and spin, and the container's spin. *)
Definition angularMomentum (s : SimSystem R) : R :=
  (Ball.mass (ball s)
   * (Ball.x (ball s) * Ball.vy (ball s) - Ball.y (ball s) * Ball.vx (ball s))
   + Ball.inertia (ball s) * Ball.angularVelocity (ball s)
   + Container.inertia (container s)
     * Container.angularVelocity (container s))%R.

(** The ball is strictly inside the wall, or on it and not moving
    outwards. *)
Definition insideOrTurned (s : SimSystem R) : Prop :=
  let b := ball s in
  (Ball.x b * Ball.x b + Ball.y b * Ball.y b < 270 * 270)%R \/
  (Ball.x b * Ball.x b + Ball.y b * Ball.y b = 270 * 270 /\
   Ball.vx b * Ball.x b + Ball.vy b * Ball.y b <= 0)%R.

(** [v] lies between [a] and [b], whichever is the larger. *)
Definition between (a b v : R) : Prop :=
  (a <= v <= b)%R \/ (b <= v <= a)%R.

(** System [i] after [reset] and [n] sub-steps of size [h] of free fall, in
    closed form. *)
Definition freeFall (i h : R) (n : nat) : SimSystem R :=
  {| id := i;
     ball := {| Ball.x := 1 + (i / 64 * (2 / 100) - 1 / 100);
                Ball.y := - 220 + 981 * h * h * (INR n * (INR n + 1) / 2);
                Ball.vx := 0; Ball.vy := INR n * (981 * h);
                Ball.angle := 0; Ball.angularVelocity := 0;
                Ball.radius := 30; Ball.mass := 10; Ball.inertia := 4500 |};
     container := {| Container.angle := 0; Container.angularVelocity := 0;
                     Container.radius := 300; Container.mass := 200;
                     Container.inertia := 18000000 |};
     initialEnergy := 2158200 |}%R.

(** The four values that the buffer takes from a system are all NaN. *)
Definition lostToNaN (s : SimSystem float) : Prop :=
  PrimFloat.is_nan (Ball.x (ball s)) = true /\
  PrimFloat.is_nan (Ball.y (ball s)) = true /\
  PrimFloat.is_nan (Ball.angle (ball s)) = true /\
  PrimFloat.is_nan (Container.angle (container s)) = true.

(** Rounding to 32 bits has no counterpart in exact arithmetic: there a
    store keeps the value. *)
Definition exactStore : Float32 R := {| fround := fun v : R => v |}.

(** ** Inputs of the examples *)

(** A shard of two systems, ids 0 and 1. *)
Definition twoIds : list float := [F64.ofZ 0; F64.ofZ 1].

(** System 7 after [reset] and one call [update(1)]: the ball reaches the
    wall in the last sub-step. *)
Definition wallHit : SimSystem float :=
  fst (update (F64.ofZ 1) (newSimSystem (F64.ofZ 7))).

(** System 35 after [reset] and 346 calls [update(1/30)]. *)
Definition longRun : SimSystem float :=
  Nat.iter 346 (fun s => fst (update (PrimFloat.div (F64.ofZ 1) (F64.ofZ 30)) s))
           (newSimSystem (F64.ofZ 35)).

(** [Math.sqrt(x*x + y*y)] of the ball of a system, in binary64. *)
Definition distance (s : SimSystem float) : float :=
  PrimFloat.sqrt
    (PrimFloat.add (PrimFloat.mul (Ball.x (ball s)) (Ball.x (ball s)))
                   (PrimFloat.mul (Ball.y (ball s)) (Ball.y (ball s)))).

(** The largest distance between the value that [update] returns and the
    stored baseline over [n] successive calls [update(dt)]. *)
Fixpoint worstDrift (n : nat) (dt : float) (s : SimSystem float)
         (worst : float) : float :=
  match n with
  | O => worst
  | S n' =>
      let (s1, e) := update dt s in
      let d := PrimFloat.abs (PrimFloat.sub e (initialEnergy s1)) in
      worstDrift n' dt s1 (if PrimFloat.ltb worst d then d else worst)
  end.

(** A state whose baseline and whose kinetic energy have overflowed (the
    ball moves at [2^600]): with its own statistics, the ratio
    [targetKE / currentKE] is [Infinity / Infinity]. *)
Definition overflowedSystem : SimSystem float :=
  {| id := F64.ofZ 0;
     ball := ball (setVel 0x1p+600%float (F64.ofZ 0) (F64.ofZ 0) (F64.ofZ 0)
                          (newSimSystem (F64.ofZ 0)));
     container := container (newSimSystem (F64.ofZ 0));
     initialEnergy := PrimFloat.infinity |}.

(** A state with kinetic energy 5 where the baseline leaves 20: the scale
    required is 2. *)
Definition overdrivenSystem : SimSystem float :=
  {| id := F64.ofZ 0;
     ball := ball (setVel (F64.ofZ 0) (F64.ofZ 1) (F64.ofZ 0) (F64.ofZ 0)
                          (newSimSystem (F64.ofZ 0)));
     container := container (newSimSystem (F64.ofZ 0));
     initialEnergy := F64.ofZ 2158220 |}.

(** The same state with an infinite baseline: the ratio
    [targetKE / currentKE] is [Infinity / 5]. *)
Definition infiniteBaselineSystem : SimSystem float :=
  {| id := id overdrivenSystem;
     ball := ball overdrivenSystem;
     container := container overdrivenSystem;
     initialEnergy := PrimFloat.infinity |}.

(** A ball that the integration of a sub-step of size 1 brings to rest at
    the container centre, in exact arithmetic and in binary64. *)
Definition centredSystem : SimSystem R :=
  setVel 0%R (-981)%R 0%R 0%R (setPos 0%R 0%R (newSimSystem 0%R)).

Definition centredSystem64 : SimSystem float :=
  setVel (F64.ofZ 0) (F64.ofZ (-981)) (F64.ofZ 0) (F64.ofZ 0)
         (setPos (F64.ofZ 0) (F64.ofZ 0) (newSimSystem (F64.ofZ 0))).

(** System 0 after [reset] and the 16 sub-steps of [update(1 / 60)], in
    exact arithmetic: the state that [correctEnergy] is called on. *)
Definition fallen : SimSystem R := freeFall 0%R (1 / 960)%R 16.

(** System 0 after [reset] and the 16 sub-steps of [update(0.01)], in
    binary64: the state that [correctEnergy] is called on. *)
Definition firstFall : SimSystem float :=
  Nat.iter SUB_STEPS
    (subStep2 (hoisted (decimal 1 100 / ofZ (Z.of_nat SUB_STEPS))%js
                       (newSimSystem (F64.ofZ 0))))
    (newSimSystem (F64.ofZ 0)).

(** [|v' - v| > |v| / 100], decided on the exact values of [v] and [v']. *)
Definition moreThanOnePercent (v v' : float) : bool :=
  match F64.dyadic v, F64.dyadic v' with
  | Some (m, e), Some (m', e') =>
      let c := Z.min e e' in
      let V := (m * 2 ^ (e - c))%Z in
      let V' := (m' * 2 ^ (e' - c))%Z in
      (Z.abs V <? 100 * Z.abs (V' - V))%Z
  | _, _ => false
  end.

(** A worker with the single system 0, in binary64, and the buffer that it
    returns for a [reset] message without buffer. *)
Definition oneSystemWorker : Worker float :=
  fst (onmessage (MsgInit [F64.ofZ 0]) initialWorker).

Definition firstResetBuffer : ArrayBuffer float :=
  {| ref := 0;
     f32 := [F64.fround (Ball.x (ball (newSimSystem (F64.ofZ 0))));
             F64.ofZ (-220); F64.ofZ 0; F64.ofZ 0];
     spare := Spare0 |}.

(** A worker with the single system 0, in exact arithmetic. *)
Definition oneSystemWorkerR : Worker R :=
  {| systems := [newSimSystem 0%R]; systemIds := [0%R]; nextRef := 0 |}.

(** A ball beyond the wall, straight below the centre, moving outwards and
    spinning. *)
Definition outwardAtWall : SimSystem R :=
  setVel 3%R 4%R 1%R 0%R (setPos 0%R 300%R (newSimSystem 0%R)).

(** Statistics with a current kinetic energy of 1000000 where the baseline
    of [newSimSystem 0] leaves 1010025: the scale required is 1.005. *)
Definition nearStats : Stats R :=
  {| total := 2148175%R; pe := 1148175%R |}.

(** * Properties *)

(** ** Facts that hold at every reading of the numbers *)

Section Structure.
Context {num : Type} `{JSNumber num}.
Local Open Scope js_scope.

Lemma reset_id (i : num) (s : SimSystem num) : id (reset i s) = id s.
Proof. reflexivity. Qed.

(** [reset] reads nothing of the previous state but [id]. *)
Lemma reset_reset (i j : num) (s : SimSystem num) :
  reset j (reset i s) = reset j s.
Proof. reflexivity. Qed.

Lemma reset_startsAt (i : num) (s : SimSystem num) : startsAt i (reset i s).
Proof. repeat split. Qed.

Lemma reset_initialEnergy (i : num) (s : SimSystem num) :
  initialEnergy (reset i s) = total (calculateEnergy (reset i s)).
Proof. reflexivity. Qed.

Lemma newSimSystem_id (i : num) : id (newSimSystem i) = i.
Proof. reflexivity. Qed.


(** The two outcomes of [correctEnergy], at every reading of the numbers:
    nothing changes and [stats.total] is returned, or the clamped scale is
    finite, the velocities are multiplied by it (unless it is 1) and
    [pe + currentKE * scale * scale] is returned. *)
Lemma correctEnergy_cases (stats : Stats num) (s : SimSystem num) :
  let currentKE := total stats - pe stats in
  let targetKE := initialEnergy s - pe stats in
  let scale := clampedScale targetKE currentKE in
  correctEnergy stats s = (s, total stats) \/
  (isFinite scale = true /\
   correctEnergy stats s
   = (if scale !== ofZ 1 then scaleVelocities scale s else s,
      pe stats + currentKE * scale * scale)).
Proof.
  intros currentKE targetKE scale. unfold correctEnergy.
  destruct (falsy (initialEnergy s) || (initialEnergy s <? decimal 1 1000000));
    [now left|].
  destruct ((initialEnergy s - pe stats >? decimal 1 1000000)
            && (total stats - pe stats >? decimal 1 1000000));
    [|now left].
  fold currentKE targetKE scale.
  destruct (isFinite scale); [right|left]; auto.
Qed.
End Structure.

(** ** What the methods leave alone *)

Ltac split_ifs :=
  repeat match goal with
         | |- context [if ?b then _ else _] => destruct b
         end.

Section Invariants.
Context {num : Type} `{JSNumber num}.
Local Open Scope js_scope.

Lemma integrate_constants (h g : num) (s : SimSystem num) :
  constantsSet s -> constantsSet (integrate h g s).
Proof. intros C; exact C. Qed.

Lemma collide2_constants (k : Hoisted num) (s : SimSystem num) :
  constantsSet s -> constantsSet (collide2 k s).
Proof. intros C. unfold collide2. split_ifs; exact C. Qed.

Lemma collide1_constants (s : SimSystem num) :
  constantsSet s -> constantsSet (collide1 s).
Proof. intros C. unfold collide1. split_ifs; exact C. Qed.

Lemma subSteps2_constants (k : Hoisted num) (n : nat) (s : SimSystem num) :
  constantsSet s -> constantsSet (Nat.iter n (subStep2 k) s).
Proof.
  intros C. induction n as [|n IH]; [exact C|].
  cbn [Nat.iter nat_rect]. now apply collide2_constants, integrate_constants.
Qed.

Lemma correctEnergy_constants (stats : Stats num) (s : SimSystem num) :
  constantsSet s -> constantsSet (fst (correctEnergy stats s)).
Proof. intros C. unfold correctEnergy. split_ifs; exact C. Qed.

Lemma update_constants (dt : num) (s : SimSystem num) :
  constantsSet s -> constantsSet (fst (update dt s)).
Proof.
  intros C. unfold update.
  now apply correctEnergy_constants, subSteps2_constants.
Qed.

Lemma collide2_id (k : Hoisted num) (s : SimSystem num) :
  id (collide2 k s) = id s.
Proof. unfold collide2. split_ifs; reflexivity. Qed.

Lemma correctEnergy_id (stats : Stats num) (s : SimSystem num) :
  id (fst (correctEnergy stats s)) = id s.
Proof. unfold correctEnergy. split_ifs; reflexivity. Qed.

Lemma update_id (dt : num) (s : SimSystem num) : id (fst (update dt s)) = id s.
Proof.
  unfold update. rewrite correctEnergy_id.
  set (k := hoisted _ s). generalize SUB_STEPS. intros n.
  induction n as [|n IH]; [reflexivity|].
  cbn [Nat.iter nat_rect]. unfold subStep2 at 1.
  now rewrite collide2_id.
Qed.

Lemma reset_constants (i : num) (s : SimSystem num) : constantsSet (reset i s).
Proof. repeat split. Qed.

Lemma reachable_constants (s : SimSystem num) :
  reachable s -> constantsSet s.
Proof.
  induction 1 as [i|s _ _|dt s _ IH].
  - apply reset_constants.
  - apply reset_constants.
  - now apply update_constants.
Qed.

(** The position is written by the sub-steps only. *)
Lemma correctEnergy_position (stats : Stats num) (s : SimSystem num) :
  Ball.x (ball (fst (correctEnergy stats s))) = Ball.x (ball s) /\
  Ball.y (ball (fst (correctEnergy stats s))) = Ball.y (ball s).
Proof. unfold correctEnergy. split_ifs; split; reflexivity. Qed.

(** The guard [if (dist <= 0) continue], at every reading of the numbers. *)
Lemma collide2_guard (k : Hoisted num) (s : SimSystem num) :
  (sqrt (Ball.x (ball s) * Ball.x (ball s) + Ball.y (ball s) * Ball.y (ball s))
   <=? ofZ 0) = true ->
  collide2 k s = s.
Proof.
  intros G. unfold collide2.
  destruct (_ >=? maxDistSq k); [|reflexivity].
  now rewrite G.
Qed.
End Invariants.

(** ** The state buffer *)

Section Buffer.
Context {num : Type} `{JSNumber num} `{Float32 num}.
Local Open Scope js_scope.

Lemma store_length (out : list num) (k : nat) (v : num) :
  length (store out k v) = length out.
Proof.
  revert k; induction out as [|a out IH]; intros [|k]; simpl; auto.
Qed.

(** A store at the position just after [pre] replaces the slot there. *)
Lemma store_at (pre : list num) (a : num) (post : list num) (k : nat) (v : num) :
  k = length pre ->
  store (pre ++ a :: post) k v = pre ++ fround v :: post.
Proof.
  intros ->. induction pre as [|b pre IH]; simpl; [reflexivity|].
  now rewrite IH.
Qed.

Lemma writeState_at (pre : list num) (a b c d : num) (post : list num)
      (i : nat) (s : SimSystem num) :
  length pre = (i * STATE_STRIDE)%nat ->
  writeState (pre ++ a :: b :: c :: d :: post) i s = pre ++ slots s ++ post.
Proof.
  intros Hlen. unfold writeState, slots.
  rewrite (store_at pre a) by auto.
  change (pre ++ ?u :: b :: ?r) with (pre ++ [u] ++ b :: r).
  rewrite app_assoc, (store_at (pre ++ [_]) b)
    by (rewrite length_app; simpl; lia).
  rewrite <- app_assoc; simpl.
  change (pre ++ ?u :: ?u' :: c :: ?r) with (pre ++ [u; u'] ++ c :: r).
  rewrite app_assoc, (store_at (pre ++ [_; _]) c)
    by (rewrite length_app; simpl; lia).
  rewrite <- app_assoc; simpl.
  change (pre ++ ?u :: ?u' :: ?u'' :: d :: ?r)
    with (pre ++ [u; u'; u''] ++ d :: r).
  rewrite app_assoc, (store_at (pre ++ [_; _; _]) d)
    by (rewrite length_app; simpl; lia).
  rewrite <- app_assoc; reflexivity.
Qed.

Lemma layout_length (ss : list (SimSystem num)) :
  length (layout ss) = (4 * length ss)%nat.
Proof.
  unfold layout.
  induction ss as [|s ss IH]; [reflexivity|].
  cbn [flat_map]. rewrite length_app, IH. simpl. lia.
Qed.

(** The 4-tuple at float offset [4 * i] of a laid-out buffer. *)
Lemma layout_tuple (ss : list (SimSystem num)) (i : nat) (s : SimSystem num) :
  nth_error ss i = Some s ->
  firstn 4 (skipn (4 * i) (layout ss)) = slots s.
Proof.
  revert i; induction ss as [|a ss IH]; intros [|i] Hi; simpl in Hi;
    try discriminate.
  - now inversion Hi.
  - replace (4 * S i)%nat with (4 + 4 * i)%nat by lia.
    simpl. now apply IH.
Qed.

(** What the two loops compute, when the slots from [4 * i] on are there. *)
Lemma resetLoop_spec (rest : list (SimSystem num)) :
  forall (i : nat) (pre mid : list num) (tot : num),
    length pre = (i * STATE_STRIDE)%nat ->
    length mid = (4 * length rest)%nat ->
    resetLoop i rest (pre ++ mid) tot
    = (map (fun s => reset (id s) s) rest,
       pre ++ layout (map (fun s => reset (id s) s) rest),
       fold_left (fun t s => t + initialEnergy (reset (id s) s)) rest tot).
Proof.
  induction rest as [|s rest IH]; intros i pre mid tot Hpre Hmid.
  - destruct mid; [|discriminate]. reflexivity.
  - destruct mid as [|a [|b [|c [|d mid]]]]; simpl in Hmid; try lia.
    cbn [resetLoop].
    rewrite writeState_at by assumption.
    rewrite app_assoc, IH; cycle 1.
    + rewrite length_app. unfold slots, STATE_STRIDE in *. simpl. lia.
    + lia.
    + cbn [map fold_left layout flat_map].
      now rewrite <- app_assoc.
Qed.

Lemma updateLoop_spec (dt : num) (rest : list (SimSystem num)) :
  forall (i : nat) (pre mid : list num) (tot : num),
    length pre = (i * STATE_STRIDE)%nat ->
    length mid = (4 * length rest)%nat ->
    updateLoop dt i rest (pre ++ mid) tot
    = (map (fun s => fst (update dt s)) rest,
       pre ++ layout (map (fun s => fst (update dt s)) rest),
       fold_left (fun t s => t + snd (update dt s)) rest tot).
Proof.
  induction rest as [|s rest IH]; intros i pre mid tot Hpre Hmid.
  - destruct mid; [|discriminate]. reflexivity.
  - destruct mid as [|a [|b [|c [|d mid]]]]; simpl in Hmid; try lia.
    cbn [updateLoop].
    destruct (update dt s) as [s1 e] eqn:Hu.
    rewrite writeState_at by assumption.
    rewrite app_assoc, IH; cycle 1.
    + rewrite length_app. unfold slots, STATE_STRIDE in *. simpl. lia.
    + lia.
    + cbn [map fold_left layout flat_map]. rewrite Hu.
      now rewrite <- app_assoc.
Qed.

Lemma spareOf_mul4 (n : nat) : spareOf (n * 4) = Spare0.
Proof. unfold spareOf. now rewrite Nat.Div0.mod_mul. Qed.

Lemma acquireBuffer_size (given : option (ArrayBuffer num)) (n next : nat) :
  length (f32 (fst (acquireBuffer given n next))) = n /\
  spare (fst (acquireBuffer given n next)) = Spare0.
Proof.
  assert (Hnew : length (f32 (newArrayBuffer next (n * 4))) = n /\
                 spare (newArrayBuffer next (n * 4)) = Spare0).
  { unfold newArrayBuffer; cbn [f32 spare].
    rewrite repeat_length, Nat.div_mul, spareOf_mul4 by lia. auto. }
  unfold acquireBuffer. destruct given as [b|]; [|exact Hnew].
  destruct (Nat.eqb (byteLength b) (n * 4)) eqn:E; simpl; [|exact Hnew].
  apply Nat.eqb_eq in E. unfold byteLength in E.
  destruct (spare b); simpl in E; split; try reflexivity; lia.
Qed.
End Buffer.

(** ** The message handler *)

Section Handler.
Context {num : Type} `{JSNumber num} `{Float32 num}.
Local Open Scope js_scope.

Lemma acquireBuffer_reusedOrFresh
      (given : option (ArrayBuffer num)) (w w' : Worker num)
      (out : ArrayBuffer num) (buffer : ArrayBuffer num) (next : nat) :
  acquireBuffer given (length (systems w) * STATE_STRIDE) (nextRef w)
  = (buffer, next) ->
  ref out = ref buffer -> nextRef w' = next ->
  reusedOrFresh given w w' out.
Proof.
  unfold acquireBuffer, reusedOrFresh, STATE_STRIDE.
  intros Ha Hr Hn.
  replace (4 * length (systems w) * 4)%nat
    with (length (systems w) * 4 * 4)%nat by lia.
  destruct given as [g|].
  - destruct (Nat.eqb (byteLength g) (length (systems w) * 4 * 4));
      simpl in Ha; inversion Ha; subst; auto.
  - inversion Ha; subst; auto.
Qed.

(** The reply of [reset], whatever buffer the message carried. *)
Lemma onmessage_reset (w : Worker num) (batchId : nat)
      (given : option (ArrayBuffer num)) :
  exists out : ArrayBuffer num,
    onmessage (MsgReset batchId given) w
    = ({| systems := map (fun s => reset (id s) s) (systems w);
          systemIds := systemIds w;
          nextRef := snd (acquireBuffer given
                            (length (systems w) * STATE_STRIDE) (nextRef w)) |},
       Some (RReset batchId out
               (fold_left (fun t s => t + initialEnergy (reset (id s) s))
                          (systems w) (ofZ 0)))) /\
    f32 out = layout (map (fun s => reset (id s) s) (systems w)) /\
    spare out = Spare0 /\
    ref out = ref (fst (acquireBuffer given
                          (length (systems w) * STATE_STRIDE) (nextRef w))).
Proof.
  unfold onmessage.
  pose proof (acquireBuffer_size given
                (length (systems w) * STATE_STRIDE) (nextRef w)) as [Hl Hs].
  destruct (acquireBuffer given _ _) as [buffer next]; simpl in Hl, Hs.
  change (f32 buffer) with ([] ++ f32 buffer).
  rewrite resetLoop_spec by (simpl; unfold STATE_STRIDE in *; lia).
  eexists; repeat split; simpl; auto.
Qed.

(** The reply of [update], whatever buffer the message carried. *)
Lemma onmessage_update (w : Worker num) (dt : num) (batchId : nat)
      (given : option (ArrayBuffer num)) :
  exists out : ArrayBuffer num,
    onmessage (MsgUpdate dt batchId given) w
    = ({| systems := map (fun s => fst (update dt s)) (systems w);
          systemIds := systemIds w;
          nextRef := snd (acquireBuffer given
                            (length (systems w) * STATE_STRIDE) (nextRef w)) |},
       Some (RUpdated batchId out
               (fold_left (fun t s => t + snd (update dt s))
                          (systems w) (ofZ 0)))) /\
    f32 out = layout (map (fun s => fst (update dt s)) (systems w)) /\
    spare out = Spare0 /\
    ref out = ref (fst (acquireBuffer given
                          (length (systems w) * STATE_STRIDE) (nextRef w))).
Proof.
  unfold onmessage.
  pose proof (acquireBuffer_size given
                (length (systems w) * STATE_STRIDE) (nextRef w)) as [Hl Hs].
  destruct (acquireBuffer given _ _) as [buffer next]; simpl in Hl, Hs.
  change (f32 buffer) with ([] ++ f32 buffer).
  rewrite updateLoop_spec by (simpl; unfold STATE_STRIDE in *; lia).
  eexists; repeat split; simpl; auto.
Qed.

Lemma byteLength_layout (out : ArrayBuffer num) (ss : list (SimSystem num)) :
  f32 out = layout ss -> spare out = Spare0 ->
  byteLength out = (4 * length ss * 4)%nat.
Proof.
  intros Hf Hs. unfold byteLength.
  rewrite Hf, Hs, layout_length. simpl. lia.
Qed.
End Handler.

(** ** Claims about the protocol *)

Section Protocol.
Context {num : Type} `{JSNumber num} `{Float32 num}.
Local Open Scope js_scope.

(** C1 (as amended).  After [init] with the ordered list [ids], the system
    at each index carries the id at that index and stands in the start
    configuration of that id: ball at
    [x = 1 + ((id / NUM_SYSTEMS * 0.02) - 0.01)], [y = -220], all velocities,
    angular velocities and angles zero, where [NUM_SYSTEMS] is the constant
    64 whatever the length of [ids]; and a [reset] message puts any system
    with that id back into the same configuration. *)
Theorem init_and_reset_start_configuration
  (w : Worker num) (ids : list num) (i : nat) (ident : num) :
  nth_error ids i = Some ident ->
  NUM_SYSTEMS = ofZ 64 /\
  (exists s, nth_error (systems (fst (onmessage (MsgInit ids) w))) i = Some s /\
             id s = ident /\ startsAt ident s) /\
  (forall (w' : Worker num) (s0 : SimSystem num) (batchId : nat)
          (given : option (ArrayBuffer num)),
      nth_error (systems w') i = Some s0 -> id s0 = ident ->
      exists s,
        nth_error (systems (fst (onmessage (MsgReset batchId given) w'))) i
        = Some s /\
        id s = ident /\ startsAt ident s).
Proof.
  intros Hi. split; [reflexivity|]. split.
  - exists (newSimSystem ident). simpl.
    split; [now apply map_nth_error|].
    split; [reflexivity|apply reset_startsAt].
  - intros w' s0 batchId given Hs0 Hid.
    destruct (onmessage_reset w' batchId given) as [out [-> _]]. simpl.
    exists (reset (id s0) s0).
    split; [now apply (map_nth_error (fun s => reset (id s) s))|].
    rewrite reset_id, Hid. split; [reflexivity|apply reset_startsAt].
Qed.

(** C5 (as amended).  The buffer returned by [update] and by [reset] is
    [4 * systemCount * 4] bytes long, and the four floats at offset [4 * i]
    are the current [ball.x], [ball.y], [ball.angle] and [container.angle]
    of the system at index [i], each rounded to a 32-bit float; the systems
    keep the order (the ids) they had. *)
Theorem state_buffer_layout (w : Worker num) :
  (forall (dt : num) (batchId : nat) (given : option (ArrayBuffer num)),
      exists w' out e,
        onmessage (MsgUpdate dt batchId given) w
        = (w', Some (RUpdated batchId out e)) /\
        map id (systems w') = map id (systems w) /\
        byteLength out = (4 * length (systems w') * 4)%nat /\
        forall i s,
          nth_error (systems w') i = Some s ->
          firstn 4 (skipn (4 * i) (f32 out))
          = [ fround (Ball.x (ball s)); fround (Ball.y (ball s));
              fround (Ball.angle (ball s));
              fround (Container.angle (container s)) ]) /\
  (forall (batchId : nat) (given : option (ArrayBuffer num)),
      exists w' out e,
        onmessage (MsgReset batchId given) w
        = (w', Some (RReset batchId out e)) /\
        map id (systems w') = map id (systems w) /\
        byteLength out = (4 * length (systems w') * 4)%nat /\
        forall i s,
          nth_error (systems w') i = Some s ->
          firstn 4 (skipn (4 * i) (f32 out))
          = [ fround (Ball.x (ball s)); fround (Ball.y (ball s));
              fround (Ball.angle (ball s));
              fround (Container.angle (container s)) ]).
Proof.
  split.
  - intros dt batchId given.
    destruct (onmessage_update w dt batchId given) as [out [E [Hf [Hs _]]]].
    do 3 eexists. split; [exact E|]. cbn [systems].
    split; [rewrite map_map; apply map_ext; intros s; apply update_id|].
    split; [now apply byteLength_layout|].
    intros i s Hi. rewrite Hf. now apply layout_tuple.
  - intros batchId given.
    destruct (onmessage_reset w batchId given) as [out [E [Hf [Hs _]]]].
    do 3 eexists. split; [exact E|]. cbn [systems].
    split; [rewrite map_map; apply map_ext; intros s; apply reset_id|].
    split; [now apply byteLength_layout|].
    intros i s Hi. rewrite Hf. now apply layout_tuple.
Qed.

(** C8.  [update] and [reset] always post a reply whose buffer is
    [4 * systemCount * 4] bytes long.  It is the buffer of the message when
    that one has exactly this byte length (nothing is allocated); for any
    other buffer, and for none, it is a newly allocated one. *)
Theorem buffer_reused_or_allocated (w : Worker num) :
  (forall (dt : num) (batchId : nat) (given : option (ArrayBuffer num)),
      exists w' out e,
        onmessage (MsgUpdate dt batchId given) w
        = (w', Some (RUpdated batchId out e)) /\
        byteLength out = (4 * length (systems w) * 4)%nat /\
        reusedOrFresh given w w' out) /\
  (forall (batchId : nat) (given : option (ArrayBuffer num)),
      exists w' out e,
        onmessage (MsgReset batchId given) w
        = (w', Some (RReset batchId out e)) /\
        byteLength out = (4 * length (systems w) * 4)%nat /\
        reusedOrFresh given w w' out).
Proof.
  split.
  - intros dt batchId given.
    destruct (onmessage_update w dt batchId given) as [out [E [Hf [Hs Hr]]]].
    do 3 eexists. split; [exact E|].
    split.
    + rewrite (byteLength_layout out _ Hf Hs), length_map. reflexivity.
    + eapply acquireBuffer_reusedOrFresh;
        [apply surjective_pairing|exact Hr|reflexivity].
  - intros batchId given.
    destruct (onmessage_reset w batchId given) as [out [E [Hf [Hs Hr]]]].
    do 3 eexists. split; [exact E|].
    split.
    + rewrite (byteLength_layout out _ Hf Hs), length_map. reflexivity.
    + eapply acquireBuffer_reusedOrFresh;
        [apply surjective_pairing|exact Hr|reflexivity].
Qed.

(** Summing the baselines of systems that were just reset gives the sum that
    resetting them gave. *)
Lemma fold_reset_energy (ss : list (SimSystem num)) (t : num) :
  fold_left (fun t s => t + initialEnergy (reset (id s) s))
            (map (fun s => reset (id s) s) ss) t
  = fold_left (fun t s => t + initialEnergy (reset (id s) s)) ss t.
Proof.
  revert t; induction ss as [|s ss IH]; intros t; [reflexivity|].
  cbn [map fold_left]. rewrite reset_id, reset_reset. apply IH.
Qed.

(** C9.  Two [reset] messages in immediate succession (each with whatever
    buffer) are answered with buffers of identical contents and with the
    same aggregate energy, and leave the systems in the same state. *)
Theorem reset_twice_same_reply
  (w : Worker num) (batch1 batch2 : nat)
  (given1 given2 : option (ArrayBuffer num)) :
  exists w1 out1 e1 w2 out2 e2,
    onmessage (MsgReset batch1 given1) w
    = (w1, Some (RReset batch1 out1 e1)) /\
    onmessage (MsgReset batch2 given2) w1
    = (w2, Some (RReset batch2 out2 e2)) /\
    f32 out1 = f32 out2 /\
    byteLength out1 = byteLength out2 /\
    e1 = e2 /\
    systems w2 = systems w1.
Proof.
  destruct (onmessage_reset w batch1 given1) as [out1 [E1 [Hf1 [Hs1 _]]]].
  set (w1 := fst (onmessage (MsgReset batch1 given1) w)).
  destruct (onmessage_reset w1 batch2 given2) as [out2 [E2 [Hf2 [Hs2 _]]]].
  assert (Hsys : systems w1 = map (fun s => reset (id s) s) (systems w))
    by (unfold w1; now rewrite E1).
  assert (Hidem : map (fun s => reset (id s) s) (systems w1) = systems w1).
  { rewrite Hsys, map_map. apply map_ext. intros s.
    now rewrite reset_id, reset_reset. }
  exists w1, out1; eexists; eexists; exists out2; eexists.
  split; [unfold w1; rewrite E1; reflexivity|].
  split; [exact E2|].
  rewrite Hidem in Hf2.
  split; [now rewrite Hf1, Hf2, Hsys|].
  split; [unfold byteLength; now rewrite Hf1, Hf2, Hs1, Hs2, Hsys|].
  split; [|cbn [systems]; exact Hidem].
  rewrite Hsys. symmetry. apply fold_reset_energy.
Qed.
End Protocol.

(** ** Exact real arithmetic *)

(** Unfold the numeric interface at [R], and the record projections. *)
Ltac js_unfold :=
  cbv beta iota zeta delta
    [decimal ofZ add sub mul div neg sqrt ltb leb strictEq falsy isFinite
     jsmax jsmin R_JSNumber GRAVITY CONTAINER_RADIUS BALL_RADIUS BALL_MASS
     CONTAINER_MASS RESTITUTION_NORMAL RESTITUTION_TANGENT NUM_SYSTEMS].

Ltac fields :=
  cbn [ball container id initialEnergy
       Ball.x Ball.y Ball.vx Ball.vy Ball.angle Ball.angularVelocity
       Ball.radius Ball.mass Ball.inertia
       Container.angle Container.angularVelocity
       Container.radius Container.mass Container.inertia
       subDt gravitySubDt rB rC maxDist maxDistSq
       invMass invInertiaB invInertiaC effMass total pe fst snd] in *.

Section ExactArithmetic.
Local Open Scope R_scope.

Lemma Exact_ltb_true (a b : R) : Exact.ltb a b = true <-> a < b.
Proof. unfold Exact.ltb. destruct (Rlt_dec a b); split; auto; discriminate. Qed.

Lemma Exact_ltb_false (a b : R) : Exact.ltb a b = false <-> b <= a.
Proof.
  unfold Exact.ltb. destruct (Rlt_dec a b); split; try discriminate; auto; lra.
Qed.

Lemma Exact_leb_true (a b : R) : Exact.leb a b = true <-> a <= b.
Proof. unfold Exact.leb. destruct (Rle_dec a b); split; auto; discriminate. Qed.

Lemma Exact_leb_false (a b : R) : Exact.leb a b = false <-> b < a.
Proof.
  unfold Exact.leb. destruct (Rle_dec a b); split; try discriminate; auto; lra.
Qed.

Lemma Exact_eqb_true (a b : R) : Exact.eqb a b = true <-> a = b.
Proof. unfold Exact.eqb. destruct (Req_dec_T a b); split; auto; discriminate. Qed.

(** Distance and squared distance compare alike against the wall. *)
Lemma sqrt_ge_iff (d m : R) : 0 <= d -> 0 <= m ->
  (m <= R_sqrt.sqrt d <-> m * m <= d).
Proof.
  intros Hd Hm. split; intros Hle.
  - rewrite <- (sqrt_sqrt d Hd). pose proof (sqrt_pos d). nra.
  - rewrite <- (sqrt_square m Hm). now apply sqrt_le_1_alt.
Qed.

Lemma sum_squares_nonneg (x y : R) : 0 <= x * x + y * y.
Proof. nra. Qed.

Lemma collide_versions_agree (h : R) (s s' : SimSystem R) :
  constantsSet s -> constantsSet s' ->
  collide1 s' = collide2 (hoisted h s) s'.
Proof.
  intros C C'.
  destruct s' as [i [x y vx vy a w r m I] [ca cw cr cm cI] E].
  destruct s as [i0 [x0 y0 vx0 vy0 a0 w0 r0 m0 I0] [ca0 cw0 cr0 cm0 cI0] E0].
  unfold constantsSet in *. fields.
  destruct C as (-> & -> & -> & -> & -> & ->).
  destruct C' as (-> & -> & -> & -> & -> & ->).
  unfold collide1, collide2, hoisted, setPos, setVel. fields. js_unfold.
  set (d := R_sqrt.sqrt (x * x + y * y)).
  assert (Hd2 : d * d = x * x + y * y)
    by (apply sqrt_sqrt, sum_squares_nonneg).
  assert (Hd0 : 0 <= d) by apply sqrt_pos.
  destruct (Exact.leb (300 - 30) d) eqn:Hwall.
  - apply Exact_leb_true in Hwall.
    assert (Hsq : Exact.leb ((300 - 30) * (300 - 30)) (x * x + y * y) = true)
      by (apply Exact_leb_true; nra).
    assert (Hpos : Exact.leb d 0 = false)
      by (apply Exact_leb_false; lra).
    rewrite Hsq, Hpos.
    replace (x * (1 / d)) with (x / d) by (field; lra).
    replace (y * (1 / d)) with (y / d) by (field; lra).
    destruct (Exact.ltb 0 (vx * (x / d) + vy * (y / d))) eqn:Hvn;
      destruct (Exact.ltb 0 (d - (300 - 30))) eqn:Hpen;
      fields;
      repeat (f_equal; try (field; lra));
      apply Exact_ltb_false in Hpen;
      replace (d - (300 - 30)) with 0 by lra; field; lra.
  - apply Exact_leb_false in Hwall.
    assert (Hsq : Exact.leb ((300 - 30) * (300 - 30)) (x * x + y * y) = false)
      by (apply Exact_leb_false; nra).
    now rewrite Hsq.
Qed.

(** C10.  In exact real arithmetic one sub-step (integration, then
    collision) of the first version of [update] and one sub-step of the
    second version lead to the same system state, for every sub-step size
    and every state whose constant fields are those that [reset] writes. *)
Theorem substep_versions_agree (h : R) (s : SimSystem R) :
  constantsSet s ->
  subStep1 h s = subStep2 (hoisted h s) s.
Proof.
  intros C. unfold subStep1, subStep2.
  change (subDt (hoisted h s)) with h.
  change (gravitySubDt (hoisted h s)) with (GRAVITY * h)%js.
  apply collide_versions_agree; [exact C|].
  now apply integrate_constants.
Qed.

(** After the collision code of the second version the ball is within the
    wall: either it was strictly inside, or it has been put on the wall. *)
Lemma collide2_inside (k : Hoisted R) (s : SimSystem R) :
  maxDist k = 270 -> maxDistSq k = 270 * 270 ->
  Ball.x (ball (collide2 k s)) * Ball.x (ball (collide2 k s))
  + Ball.y (ball (collide2 k s)) * Ball.y (ball (collide2 k s))
  <= 270 * 270.
Proof.
  intros Hm Hm2.
  destruct s as [i [x y vx vy a w r m I] [ca cw cr cm cI] E].
  unfold collide2, setPos, setVel. fields. js_unfold. rewrite Hm, Hm2.
  set (d := R_sqrt.sqrt (x * x + y * y)).
  assert (Hd2 : d * d = x * x + y * y)
    by (apply sqrt_sqrt, sum_squares_nonneg).
  assert (Hd0 : 0 <= d) by apply sqrt_pos.
  destruct (Exact.leb (270 * 270) (x * x + y * y)) eqn:Hwall.
  - apply Exact_leb_true in Hwall.
    assert (Hd : 270 <= d) by nra.
    assert (Hpos : Exact.leb d 0 = false) by (apply Exact_leb_false; lra).
    rewrite Hpos.
    assert (Hon : (x - x * (1 / d) * (d - 270)) * (x - x * (1 / d) * (d - 270))
                  + (y - y * (1 / d) * (d - 270)) * (y - y * (1 / d) * (d - 270))
                  = 270 * 270).
    { replace (x - x * (1 / d) * (d - 270)) with (x * (270 / d))
        by (field; lra).
      replace (y - y * (1 / d) * (d - 270)) with (y * (270 / d))
        by (field; lra).
      replace (x * (270 / d) * (x * (270 / d)) + y * (270 / d) * (y * (270 / d)))
        with ((x * x + y * y) * (270 * 270) / (d * d)) by (field; lra).
      rewrite <- Hd2. field; lra. }
    destruct (Exact.ltb 0 (d - 270)) eqn:Hpen.
    + split_ifs; fields; lra.
    + apply Exact_ltb_false in Hpen.
      split_ifs; fields; nra.
  - apply Exact_leb_false in Hwall. fields. lra.
Qed.

(** C4 (as amended).  In exact real arithmetic, after every [update(dt)]
    from a reachable state the ball centre is at distance at most
    [CONTAINER_RADIUS - BALL_RADIUS] = 270 from the container centre. *)
Theorem ball_within_wall_after_update (dt : R) (s : SimSystem R) :
  reachable s ->
  let b := ball (fst (update dt s)) in
  R_sqrt.sqrt (Ball.x b * Ball.x b + Ball.y b * Ball.y b)
  <= CONTAINER_RADIUS - BALL_RADIUS
  /\ CONTAINER_RADIUS - BALL_RADIUS = 270.
Proof.
  intros Hr b. apply reachable_constants in Hr.
  split; [|unfold CONTAINER_RADIUS, BALL_RADIUS; js_unfold; lra].
  replace (CONTAINER_RADIUS - BALL_RADIUS) with (R_sqrt.sqrt (270 * 270)).
  2:{ rewrite sqrt_square by lra.
      unfold CONTAINER_RADIUS, BALL_RADIUS; js_unfold; lra. }
  apply sqrt_le_1_alt.
  subst b. unfold update.
  destruct (correctEnergy_position
              (calculateEnergy
                 (Nat.iter SUB_STEPS
                    (subStep2 (hoisted (dt / ofZ (Z.of_nat SUB_STEPS))%js s)) s))
              (Nat.iter SUB_STEPS
                 (subStep2 (hoisted (dt / ofZ (Z.of_nat SUB_STEPS))%js s)) s))
    as [-> ->].
  change SUB_STEPS with (S 15). cbn [Nat.iter nat_rect].
  unfold subStep2 at 1 2 3 4.
  destruct Hr as (Hrb & _ & _ & Hrc & _).
  apply collide2_inside; unfold hoisted; fields; rewrite Hrb, Hrc;
    js_unfold; lra.
Qed.

(** The clamp, in exact arithmetic. *)
Lemma clampedScale_exact (targetKE currentKE : R) :
  clampedScale targetKE currentKE
  = Rmax (99 / 100) (Rmin (101 / 100) (R_sqrt.sqrt (targetKE / currentKE))).
Proof. reflexivity. Qed.

Lemma clampedScale_bounds (targetKE currentKE : R) :
  99 / 100 <= clampedScale targetKE currentKE <= 101 / 100.
Proof.
  rewrite clampedScale_exact. split; [apply Rmax_l|].
  apply Rmax_lub; [lra|apply Rmin_l].
Qed.

(** With the three energies above [1e-6], [correctEnergy] corrects. *)
Lemma correctEnergy_corrects (stats : Stats R) (s : SimSystem R) :
  1 / 1000000 < initialEnergy s ->
  1 / 1000000 < total stats - pe stats ->
  1 / 1000000 < initialEnergy s - pe stats ->
  let currentKE := total stats - pe stats in
  let scale := clampedScale (initialEnergy s - pe stats) currentKE in
  correctEnergy stats s
  = (if Exact.eqb scale 1 then s else scaleVelocities scale s,
     pe stats + currentKE * scale * scale).
Proof.
  intros HE Hc Ht currentKE scale.
  unfold correctEnergy. js_unfold. fold currentKE.
  assert (G1 : Exact.eqb (initialEnergy s) 0 = false).
  { unfold Exact.eqb. destruct (Req_dec_T _ _); [lra|reflexivity]. }
  assert (G2 : Exact.ltb (initialEnergy s) (1 / 1000000) = false)
    by (apply Exact_ltb_false; lra).
  assert (G3 : Exact.ltb (1 / 1000000) (initialEnergy s - pe stats) = true)
    by (now apply Exact_ltb_true).
  assert (G4 : Exact.ltb (1 / 1000000) currentKE = true)
    by (now apply Exact_ltb_true).
  rewrite G1, G2, G3, G4. cbn [orb andb negb].
  change (clampedScale (initialEnergy s - pe stats) currentKE) with scale.
  now destruct (Exact.eqb scale 1).
Qed.

(** A factor within 1% of one changes a number by at most 1% of its
    magnitude. *)
Lemma scaled_within_one_percent (scale v : R) :
  99 / 100 <= scale <= 101 / 100 ->
  Rabs (v * scale - v) <= 1 / 100 * Rabs v.
Proof.
  intros Hs. replace (v * scale - v) with ((scale - 1) * v) by ring.
  rewrite Rabs_mult. apply Rmult_le_compat_r; [apply Rabs_pos|].
  apply Rabs_le. lra.
Qed.

(** C2 (as amended).  In exact real arithmetic, when [correctEnergy]
    (second version) corrects (baseline, current and target kinetic energy
    all above [1e-6]), the scale is [sqrt (target / current)] clamped to
    [[0.99, 1.01]]; the four velocities are multiplied by it, so each
    changes by at most 1% of its magnitude; and the energy returned is
    [pe + currentKE * scale * scale]. *)
Theorem correctEnergy_scales_by_clamped_factor
  (stats : Stats R) (s : SimSystem R) :
  1 / 1000000 < initialEnergy s ->
  1 / 1000000 < total stats - pe stats ->
  1 / 1000000 < initialEnergy s - pe stats ->
  let currentKE := total stats - pe stats in
  let targetKE := initialEnergy s - pe stats in
  let scale := clampedScale targetKE currentKE in
  let s' := fst (correctEnergy stats s) in
  scale = Rmax (99 / 100) (Rmin (101 / 100) (R_sqrt.sqrt (targetKE / currentKE)))
  /\ 99 / 100 <= scale <= 101 / 100
  /\ Ball.vx (ball s') = Ball.vx (ball s) * scale
  /\ Ball.vy (ball s') = Ball.vy (ball s) * scale
  /\ Ball.angularVelocity (ball s') = Ball.angularVelocity (ball s) * scale
  /\ Container.angularVelocity (container s')
     = Container.angularVelocity (container s) * scale
  /\ Rabs (Ball.vx (ball s') - Ball.vx (ball s))
     <= 1 / 100 * Rabs (Ball.vx (ball s))
  /\ Rabs (Ball.vy (ball s') - Ball.vy (ball s))
     <= 1 / 100 * Rabs (Ball.vy (ball s))
  /\ Rabs (Ball.angularVelocity (ball s') - Ball.angularVelocity (ball s))
     <= 1 / 100 * Rabs (Ball.angularVelocity (ball s))
  /\ Rabs (Container.angularVelocity (container s')
           - Container.angularVelocity (container s))
     <= 1 / 100 * Rabs (Container.angularVelocity (container s))
  /\ snd (correctEnergy stats s) = pe stats + currentKE * (scale * scale).
Proof.
  intros HE Hc Ht currentKE targetKE scale s'.
  pose proof (clampedScale_bounds targetKE currentKE) as Hrange.
  fold scale in Hrange.
  pose proof (correctEnergy_corrects stats s HE Hc Ht) as Hrun.
  cbv zeta in Hrun. fold currentKE targetKE in Hrun. fold scale in Hrun.
  assert (Hs' : Ball.vx (ball s') = Ball.vx (ball s) * scale
                /\ Ball.vy (ball s') = Ball.vy (ball s) * scale
                /\ Ball.angularVelocity (ball s')
                   = Ball.angularVelocity (ball s) * scale
                /\ Container.angularVelocity (container s')
                   = Container.angularVelocity (container s) * scale).
  { subst s'. rewrite Hrun. cbn [fst].
    destruct (Exact.eqb scale 1) eqn:E1.
    - apply Exact_eqb_true in E1. rewrite E1. repeat split; ring.
    - repeat split. }
  destruct Hs' as (Hvx & Hvy & Hw & Hcw).
  split; [apply clampedScale_exact|].
  split; [exact Hrange|].
  repeat (split; [assumption|]).
  rewrite Hvx, Hvy, Hw, Hcw.
  repeat (split; [now apply scaled_within_one_percent|]).
  rewrite Hrun. cbn [snd]. ring.
Qed.

(** C7.  When the ball is exactly at the container centre after the
    integration of a sub-step, the collision code is skipped: the sub-step
    ends in the integrated state (no normal is computed, no velocity is
    touched), in the second version as in the first. *)
Theorem collision_skipped_at_centre (h : R) (s : SimSystem R) :
  constantsSet s ->
  let s1 := integrate h (GRAVITY * h)%js s in
  R_sqrt.sqrt (Ball.x (ball s1) * Ball.x (ball s1)
               + Ball.y (ball s1) * Ball.y (ball s1)) = 0 ->
  subStep2 (hoisted h s) s = s1 /\ subStep1 h s = s1.
Proof.
  intros C s1 Hd. split.
  - unfold subStep2.
    change (integrate (subDt (hoisted h s)) (gravitySubDt (hoisted h s)) s)
      with s1.
    apply collide2_guard. js_unfold. rewrite Hd.
    apply Exact_leb_true. lra.
  - unfold subStep1. fold s1.
    assert (C1 : constantsSet s1) by now apply integrate_constants.
    destruct C1 as (Hrb & _ & _ & Hrc & _).
    unfold collide1. js_unfold. rewrite Hd, Hrb, Hrc.
    unfold CONTAINER_RADIUS, BALL_RADIUS. js_unfold.
    assert (G : Exact.leb (300 - 30) 0 = false)
      by (apply Exact_leb_false; lra).
    now rewrite G.
Qed.
End ExactArithmetic.

(** ** The energy budget of a call, in exact real arithmetic *)

Section Energy.
Local Open Scope R_scope.

(** The integration of a sub-step loses exactly [m * (g * h)^2 / 2]. *)
Lemma integrate_energy (h : R) (s : SimSystem R) :
  total (calculateEnergy (integrate h (GRAVITY * h)%js s))
  = total (calculateEnergy s)
    - 1 / 2 * Ball.mass (ball s) * (981 * h) * (981 * h).
Proof.
  destruct s as [i [x y vx vy a w r m I] [ca cw cr cm cI] E].
  unfold calculateEnergy, integrate. fields. js_unfold. field.
Qed.

(** The collision response leaves the kinetic energy as it is (only the
    push back to the wall changes the energy, through the height). *)
Lemma collide2_kinetic (h : R) (s0 s : SimSystem R) :
  constantsSet s0 -> constantsSet s ->
  kinetic (collide2 (hoisted h s0) s) = kinetic s.
Proof.
  intros C0 C. unfold kinetic.
  destruct s as [i [x y vx vy a w r m I] [ca cw cr cm cI] E].
  destruct s0 as [i0 [x0 y0 vx0 vy0 a0 w0 r0 m0 I0] [ca0 cw0 cr0 cm0 cI0] E0].
  unfold constantsSet in *. fields.
  destruct C0 as (-> & -> & -> & -> & -> & ->).
  destruct C as (-> & -> & -> & -> & -> & ->).
  unfold collide2, hoisted, setPos, setVel. fields. js_unfold.
  set (d := R_sqrt.sqrt (x * x + y * y)).
  assert (Hd2 : d * d = x * x + y * y)
    by (apply sqrt_sqrt; nra).
  assert (Hd0 : 0 <= d) by apply sqrt_pos.
  destruct (Exact.leb ((300 - 30) * (300 - 30)) (x * x + y * y)) eqn:Hwall;
    [|unfold calculateEnergy; fields; js_unfold; field].
  apply Exact_leb_true in Hwall.
  assert (Hd : 270 <= d) by nra.
  assert (Hpos : Exact.leb d 0 = false) by (apply Exact_leb_false; lra).
  rewrite Hpos.
  assert (Hn : x * (1 / d) * (x * (1 / d)) + y * (1 / d) * (y * (1 / d)) = 1).
  { replace (x * (1 / d) * (x * (1 / d)) + y * (1 / d) * (y * (1 / d)))
      with ((x * x + y * y) / (d * d)) by (field; lra).
    rewrite <- Hd2. field; lra. }
  set (nx := x * (1 / d)) in *. set (ny := y * (1 / d)) in *.
  clearbody nx ny.
  split_ifs; unfold calculateEnergy; fields; js_unfold; try field.
  all: match goal with
       | |- _ = ?K =>
           transitivity
             (K + (20 * (vx * nx + vy * ny) * (vx * nx + vy * ny)
                   + (-2 * (- vx * ny + vy * nx + 30 * w - 300 * cw) * (200 / 61))
                     * (-2 * (- vx * ny + vy * nx + 30 * w - 300 * cw) * (200 / 61))
                     / 20)
                  * (nx * nx + ny * ny - 1));
           [field|rewrite Hn; ring]
       end.
Qed.

(** X19.  A correction that the clamp does not cut returns the baseline:
    when baseline, current and target kinetic energy are above [1e-6] and
    the required scale [sqrt (target / current)] lies in [[0.99, 1.01]],
    the energy that [correctEnergy] returns is [initialEnergy]. *)
Lemma correctEnergy_restores_baseline (stats : Stats R) (s : SimSystem R) :
  1 / 1000000 < initialEnergy s ->
  1 / 1000000 < total stats - pe stats ->
  1 / 1000000 < initialEnergy s - pe stats ->
  99 / 100 <= R_sqrt.sqrt ((initialEnergy s - pe stats) / (total stats - pe stats))
           <= 101 / 100 ->
  snd (correctEnergy stats s) = initialEnergy s.
Proof.
  intros HE Hc Ht Hs.
  rewrite (correctEnergy_corrects stats s HE Hc Ht). cbn [snd].
  rewrite clampedScale_exact, Rmin_right, Rmax_right by lra.
  rewrite Rmult_assoc, sqrt_sqrt.
  - field. lra.
  - apply Rlt_le, Rdiv_lt_0_compat; lra.
Qed.

(** Scaling the velocities scales the kinetic energy by the square. *)
Lemma scaleVelocities_kinetic (scale : R) (s : SimSystem R) :
  kinetic (scaleVelocities scale s) = kinetic s * (scale * scale).
Proof.
  destruct s as [i [x y vx vy a w r m I] [ca cw cr cm cI] E].
  unfold kinetic, scaleVelocities, setVel, calculateEnergy. fields. js_unfold.
  ring.
Qed.

(** The value that [correctEnergy] returns is the energy of the state it
    leaves. *)
Lemma correctEnergy_returns_energy (s : SimSystem R) :
  snd (correctEnergy (calculateEnergy s) s)
  = total (calculateEnergy (fst (correctEnergy (calculateEnergy s) s))).
Proof.
  destruct (correctEnergy_cases (calculateEnergy s) s) as [E|[_ E]];
    rewrite E; cbn [fst snd]; [reflexivity|].
  set (scale := clampedScale _ _).
  assert (Hpe : forall u, pe (calculateEnergy (scaleVelocities u s))
                          = pe (calculateEnergy s)) by reflexivity.
  assert (Hk := scaleVelocities_kinetic scale s). unfold kinetic in Hk.
  rewrite Hpe in Hk.
  cbn [add sub mul strictEq ofZ R_JSNumber].
  destruct (Exact.eqb scale 1) eqn:E1; cbn [negb].
  - apply Exact_eqb_true in E1. rewrite E1. ring.
  - transitivity (pe (calculateEnergy s)
                  + (total (calculateEnergy (scaleVelocities scale s))
                     - pe (calculateEnergy s))); [rewrite Hk|]; ring.
Qed.
End Energy.

(** ** The hypotheses of the exact-arithmetic theorems, met *)

Section ExactWitnesses.
Local Open Scope R_scope.

(** The baseline that [reset] stores: [10 * 981 * 220]. *)
Lemma newSimSystem_baseline (i : R) : initialEnergy (newSimSystem i) = 2158200.
Proof.
  unfold newSimSystem, reset, calculateEnergy. fields. js_unfold. field.
Qed.

(** System 0 after [reset], sub-step size [1 / 480]. *)
Lemma substep_versions_agree_witness :
  constantsSet (newSimSystem 0) /\
  subStep1 (1 / 480) (newSimSystem 0)
  = subStep2 (hoisted (1 / 480) (newSimSystem 0)) (newSimSystem 0).
Proof.
  split; [apply reset_constants|].
  apply (substep_versions_agree (1 / 480) (newSimSystem 0)).
  apply reset_constants.
Defined.

(** System 0 after [reset], [update(1 / 60)]. *)
Lemma ball_within_wall_after_update_witness :
  reachable (newSimSystem 0) /\
  R_sqrt.sqrt
    (Ball.x (ball (fst (update (1 / 60) (newSimSystem 0))))
     * Ball.x (ball (fst (update (1 / 60) (newSimSystem 0))))
     + Ball.y (ball (fst (update (1 / 60) (newSimSystem 0))))
       * Ball.y (ball (fst (update (1 / 60) (newSimSystem 0)))))
  <= CONTAINER_RADIUS - BALL_RADIUS.
Proof.
  split; [apply reach_new|].
  apply (ball_within_wall_after_update (1 / 60) (newSimSystem 0)).
  apply reach_new.
Defined.

(** A ball that a sub-step of size 1 brings to rest at the centre. *)
Lemma collision_skipped_at_centre_witness :
  constantsSet centredSystem /\
  R_sqrt.sqrt
    (Ball.x (ball (integrate 1 (GRAVITY * 1)%js centredSystem))
     * Ball.x (ball (integrate 1 (GRAVITY * 1)%js centredSystem))
     + Ball.y (ball (integrate 1 (GRAVITY * 1)%js centredSystem))
       * Ball.y (ball (integrate 1 (GRAVITY * 1)%js centredSystem))) = 0 /\
  subStep2 (hoisted 1 centredSystem) centredSystem
  = integrate 1 (GRAVITY * 1)%js centredSystem.
Proof.
  assert (C : constantsSet centredSystem) by (repeat split).
  assert (D : R_sqrt.sqrt
    (Ball.x (ball (integrate 1 (GRAVITY * 1)%js centredSystem))
     * Ball.x (ball (integrate 1 (GRAVITY * 1)%js centredSystem))
     + Ball.y (ball (integrate 1 (GRAVITY * 1)%js centredSystem))
       * Ball.y (ball (integrate 1 (GRAVITY * 1)%js centredSystem))) = 0).
  { unfold centredSystem, integrate, setVel, setPos, newSimSystem, reset.
    fields. js_unfold.
    match goal with
    | |- R_sqrt.sqrt ?e = 0 => replace e with 0 by field
    end.
    apply sqrt_0. }
  split; [exact C|]. split; [exact D|].
  apply (collision_skipped_at_centre 1 centredSystem C D).
Defined.
End ExactWitnesses.

(** ** Binary64: the program as it runs *)

Section Binary64.
#[local] Set Warnings "-inexact-float".

(** The decimal literals of the program, and [GRAVITY = 9.81 * 100]. *)
Example decimal_literals :
  (decimal 981 100 : float) = 9.81%float /\
  (decimal 2 100 : float) = 0.02%float /\
  (decimal 1 100 : float) = 0.01%float /\
  (decimal 5 10 : float) = 0.5%float /\
  (decimal 1 10 : float) = 0.1%float /\
  (decimal 99 100 : float) = 0.99%float /\
  (decimal 101 100 : float) = 1.01%float /\
  (decimal 1 1000000 : float) = 0.000001%float /\
  (GRAVITY : float) = 981%float.
Proof. vm_compute. repeat split. Qed.

(** The start positions that the specification quotes for ids 0 and 63. *)
Example start_positions :
  Ball.x (ball (newSimSystem (F64.ofZ 0))) = 0.99%float /\
  Ball.x (ball (newSimSystem (F64.ofZ 63))) = 1.0096875000000001%float /\
  Ball.y (ball (newSimSystem (F64.ofZ 63))) = (-220)%float /\
  initialEnergy (newSimSystem (F64.ofZ 63)) = 2158200%float.
Proof. vm_compute. repeat split. Qed.

(** [Math.fround]: a tie goes to the even neighbour, values beyond the
    binary32 range become infinite, small ones subnormal or zero. *)
Example fround_values :
  F64.fround 0x1.999999999999ap-4 = 0x1.99999ap-4%float /\
  F64.fround 0x1.000001p+24 = 0x1p+24%float /\
  F64.fround 0x1.000003p+24 = 0x1.000004p+24%float /\
  F64.fround 0x1.ffffffp+127 = infinity /\
  F64.fround 0x1p-150 = 0%float /\
  F64.fround 0x1.8p-149 = 0x1p-148%float /\
  F64.fround (-220) = (-220)%float.
Proof. vm_compute. repeat split. Qed.

(** The drift observed over 2000 calls [update(1/30)] of system 0: at most
    778 below or above the baseline 2158200.  An observation of one run, not
    a bound for all of them. *)
Example drift_of_one_run :
  PrimFloat.leb
    (worstDrift 2000 (PrimFloat.div 1 30) (newSimSystem (F64.ofZ 0)) 0)
    778 = true.
Proof. vm_compute. reflexivity. Qed.

(** *** Order of binary64 numbers *)

(** Binary64 comparisons: [a == b] entails [a <= b]. *)
Lemma float_eqb_leb (a b : float) :
  PrimFloat.eqb a b = true -> PrimFloat.leb a b = true.
Proof.
  rewrite eqb_spec, leb_spec. unfold SFeqb, SFleb.
  destruct (SFcompare _ _) as [[]|]; auto.
Qed.

(** Binary64 comparisons: [<] entails [<=], and two numbers are ordered one
    way or the other. *)
Lemma float_ltb_leb (a b : float) :
  PrimFloat.ltb a b = true -> PrimFloat.leb a b = true.
Proof.
  rewrite ltb_spec, leb_spec. unfold SFltb, SFleb.
  destruct (SFcompare _ _) as [[]|]; auto.
Qed.

Lemma SFcompare_antisym (x y : spec_float) (c : comparison) :
  SFcompare x y = Some c -> SFcompare y x = Some (CompOpp c).
Proof.
  destruct x as [sx|sx| |sx mx ex], y as [sy|sy| |sy my ey];
    simpl; try discriminate;
    try (destruct sx); try (destruct sy);
    intros E; inversion E; subst; clear E; try reflexivity.
  - rewrite (Z.compare_antisym ex ey).
    destruct (ex ?= ey)%Z; simpl; try reflexivity.
    f_equal. rewrite CompOpp_involutive.
    change (Pos.compare_cont Eq my mx) with (Pos.compare my mx).
    change (Pos.compare_cont Eq mx my) with (Pos.compare mx my).
    now rewrite (Pos.compare_antisym mx my), CompOpp_involutive.
  - rewrite (Z.compare_antisym ex ey).
    destruct (ex ?= ey)%Z; simpl; try reflexivity.
    f_equal.
    change (Pos.compare_cont Eq my mx) with (Pos.compare my mx).
    change (Pos.compare_cont Eq mx my) with (Pos.compare mx my).
    now rewrite (Pos.compare_antisym mx my).
Qed.

Lemma SFcompare_defined (x y : spec_float) :
  SFeqb x x = true -> SFeqb y y = true -> exists c, SFcompare x y = Some c.
Proof.
  unfold SFeqb.
  destruct x as [sx|sx| |sx mx ex], y as [sy|sy| |sy my ey];
    simpl; try discriminate; intros _ _; eauto.
Qed.

Lemma float_not_gt_leb (a b : float) :
  PrimFloat.is_nan a = false -> PrimFloat.is_nan b = false ->
  PrimFloat.ltb b a = false -> PrimFloat.leb a b = true.
Proof.
  unfold PrimFloat.is_nan. rewrite !negb_false_iff, !eqb_spec, ltb_spec, leb_spec.
  intros Ha Hb. destruct (SFcompare_defined _ _ Ha Hb) as [c Hc].
  unfold SFltb, SFleb. rewrite (SFcompare_antisym _ _ _ Hc), Hc.
  destruct c; simpl; auto.
Qed.

(** A distance that compares equal to zero is below the wall. *)
Lemma float_zero_below_wall (d : float) :
  PrimFloat.eqb d 0 = true -> PrimFloat.leb 270 d = false.
Proof.
  rewrite eqb_spec, leb_spec.
  change (Prim2SF 0) with (S754_zero false).
  replace (Prim2SF 270) with (S754_finite false 4749890231992320 (-44))
    by (vm_compute; reflexivity).
  unfold SFeqb, SFleb.
  destruct (Prim2SF d) as [sd|sd| |sd md ed]; simpl; try discriminate;
    try reflexivity.
  - destruct sd; discriminate.
  - destruct sd; discriminate.
Qed.

(** *** The hypothesis of the theorem on the start configuration, met *)

(** [init] with the ids 0 and 1: the system at index 1. *)
Lemma init_and_reset_start_configuration_witness :
  nth_error twoIds 1 = Some (F64.ofZ 1) /\
  exists s,
    nth_error (systems (fst (onmessage (MsgInit twoIds) initialWorker))) 1
    = Some s /\
    id s = F64.ofZ 1 /\ startsAt (F64.ofZ 1) s.
Proof.
  split; [reflexivity|].
  apply (init_and_reset_start_configuration
           initialWorker twoIds 1 (F64.ofZ 1) eq_refl).
Defined.

(** The finiteness check reads the scale after the clamp.  An infinite
    ratio gives the scale [1.01], which is applied; only NaN is skipped. *)
Example infinite_ratio_is_clamped :
  PrimFloat.sqrt
    (PrimFloat.div
       (initialEnergy infiniteBaselineSystem
        - pe (calculateEnergy infiniteBaselineSystem))%js
       (total (calculateEnergy infiniteBaselineSystem)
        - pe (calculateEnergy infiniteBaselineSystem))%js)
  = infinity /\
  clampedScale
    (initialEnergy infiniteBaselineSystem
     - pe (calculateEnergy infiniteBaselineSystem))%js
    (total (calculateEnergy infiniteBaselineSystem)
     - pe (calculateEnergy infiniteBaselineSystem))%js
  = 1.01%float /\
  Ball.vy (ball infiniteBaselineSystem) = 1%float /\
  Ball.vy (ball (fst (correctEnergy (calculateEnergy infiniteBaselineSystem)
                                    infiniteBaselineSystem)))
  = 1.01%float.
Proof. vm_compute. repeat split. Qed.

(** *** Where a statement fails *)

(** C1 as stated fails: in a shard of two ids, the system with id 1 starts at
    [x = 1 + ((1 / 64 * 0.02) - 0.01) = 0.9903125], not at
    [1 + (1 / 2) * 0.02 - 0.01 = 1]. *)
Lemma start_offset_by_shard_count_counterexample :
  exists s,
    nth_error (systems (fst (onmessage (MsgInit twoIds) initialWorker))) 1
    = Some s /\
    id s = F64.ofZ 1 /\
    Ball.x (ball s) = 0.99031250000000004%float /\
    (ofZ 1 + (id s / ofZ (Z.of_nat (length twoIds))) * decimal 2 100
     - decimal 1 100)%js = 1%float /\
    PrimFloat.eqb
      (Ball.x (ball s))
      (ofZ 1 + (id s / ofZ (Z.of_nat (length twoIds))) * decimal 2 100
       - decimal 1 100)%js = false.
Proof. eexists. vm_compute. repeat split. Qed.

(** C4 as stated fails in binary64: system 7, after [reset] and one
    [update(1)], has its ball at [Math.sqrt(x*x + y*y) = 270.00000000000006],
    and the exact values of [x] and [y] satisfy [x*x + y*y > 270*270]; so has
    system 35 after [reset] and 346 calls [update(1/30)]. *)
Lemma ball_outside_wall_counterexample :
  reachable (newSimSystem (F64.ofZ 7)) /\
  reachable (newSimSystem (F64.ofZ 35)) /\
  Ball.x (ball wallHit) = 0.88953548572477237%float /\
  Ball.y (ball wallHit) = 269.99853467494904%float /\
  distance wallHit = 270.00000000000006%float /\
  PrimFloat.leb (distance wallHit) (CONTAINER_RADIUS - BALL_RADIUS)%js = false /\
  F64.outsideCircle (Ball.x (ball wallHit)) (Ball.y (ball wallHit)) 270 = true /\
  distance longRun = 270.00000000000006%float /\
  PrimFloat.leb (distance longRun) (CONTAINER_RADIUS - BALL_RADIUS)%js = false /\
  F64.outsideCircle (Ball.x (ball longRun)) (Ball.y (ball longRun)) 270 = true.
Proof.
  split; [exact (reach_new (F64.ofZ 7))|].
  split; [exact (reach_new (F64.ofZ 35))|].
  vm_compute. repeat split.
Qed.

(** C5 as stated fails: after [init] with the single id 0 and a [reset], the
    system has [ball.x = 0.99] (binary64) and the buffer holds
    [0.9900000095367432], its rounding to 32 bits. *)
Lemma buffer_holds_exact_state_counterexample :
  exists w out e s,
    onmessage (MsgReset 0 None)
              (fst (onmessage (MsgInit [F64.ofZ 0]) initialWorker))
    = (w, Some (RReset 0 out e)) /\
    nth_error (systems w) 0 = Some s /\
    Ball.x (ball s) = 0.99%float /\
    firstn 4 (skipn (4 * 0) (f32 out))
    = [0.99000000953674316; -220; 0; 0]%float /\
    PrimFloat.eqb 0.99000000953674316 (Ball.x (ball s)) = false.
Proof. do 4 eexists. vm_compute. repeat split. Qed.

(** *** The correction and the collision guard in binary64 *)

(** The clamped scale, when finite, lies between [0.99] and [1.01]. *)
Lemma clampedScale_range_binary64 (t c : float) :
  PrimFloat.is_finite (clampedScale t c) = true ->
  PrimFloat.leb 0.99 (clampedScale t c) = true /\
  PrimFloat.leb (clampedScale t c) 1.01 = true.
Proof.
  unfold clampedScale.
  set (s := sqrt (t / c)%js).
  change (jsmax (decimal 99 100) (jsmin (decimal 101 100) s))
    with (F64.max 0.99 (F64.min 1.01 s)).
  unfold F64.max, F64.min.
  change (PrimFloat.is_nan 1.01) with false.
  change (PrimFloat.is_nan 0.99) with false.
  change (PrimFloat.get_sign 1.01) with false.
  change (PrimFloat.get_sign 0.99) with false.
  cbn [orb].
  destruct (PrimFloat.is_nan s) eqn:Hn.
  { change (PrimFloat.is_nan nan) with true. cbn. discriminate. }
  assert (Hlo : PrimFloat.leb 0.99 0.99 = true) by reflexivity.
  assert (Hhi : PrimFloat.leb 1.01 1.01 = true) by reflexivity.
  assert (Hlh : PrimFloat.leb 0.99 1.01 = true) by reflexivity.
  assert (Hn99 : PrimFloat.is_nan 0.99 = false) by reflexivity.
  assert (Hn101 : PrimFloat.is_nan 1.01 = false) by reflexivity.
  intros _.
  destruct (PrimFloat.ltb 1.01 s) eqn:H1.
  - change (PrimFloat.is_nan 1.01) with false.
    change (PrimFloat.ltb 0.99 1.01) with true. cbn. auto.
  - assert (Hs : PrimFloat.leb s 1.01 = true)
      by (apply float_not_gt_leb; auto).
    assert (Hm : (if PrimFloat.ltb s 1.01 then s else s) = s)
      by (destruct (PrimFloat.ltb s 1.01); reflexivity).
    rewrite Hm, Hn.
    destruct (PrimFloat.ltb 0.99 s) eqn:H2.
    + split; [now apply float_ltb_leb|exact Hs].
    + destruct (PrimFloat.ltb s 0.99); auto.
Qed.

(** X20.  In binary64 [correctEnergy] either changes nothing, or multiplies
    the four velocities by one scale between [0.99] and [1.01] and returns
    [pe + currentKE * scale * scale], as computed. *)
Lemma correctEnergy_binary64 (stats : Stats float) (s : SimSystem float) :
  let currentKE := (total stats - pe stats)%js in
  let targetKE := (initialEnergy s - pe stats)%js in
  let scale := clampedScale targetKE currentKE in
  correctEnergy stats s = (s, total stats) \/
  (PrimFloat.leb 0.99 scale = true /\
   PrimFloat.leb scale 1.01 = true /\
   correctEnergy stats s
   = (if PrimFloat.eqb scale 1 then s else scaleVelocities scale s,
      (pe stats + currentKE * scale * scale)%js)).
Proof.
  intros currentKE targetKE scale.
  destruct (correctEnergy_cases stats s) as [E|[Hf E]]; [now left|right].
  destruct (clampedScale_range_binary64 _ _ Hf) as [Hlo Hhi].
  repeat split; try assumption.
  rewrite E. fold currentKE targetKE scale.
  cbn [strictEq float_JSNumber ofZ F64.ofZ].
  change (of_uint63 (Uint63.of_Z 1)) with 1%float.
  now destruct (PrimFloat.eqb scale 1).
Qed.

(** The first version of [correctEnergy] has no clamp: here the required
    scale is 2 and the velocity grows by a tenth. *)
Example first_version_is_not_clamped :
  Ball.vy (ball overdrivenSystem) = 1%float /\
  Ball.vy (ball (correctEnergy1 overdrivenSystem)) = 1.1000000000000001%float /\
  Ball.vy (ball (fst (correctEnergy (calculateEnergy overdrivenSystem)
                                    overdrivenSystem)))
  = 1.01%float.
Proof. vm_compute. repeat split. Qed.

(** The collision code of the second version in binary64: a distance that
    compares equal to zero skips the response, whatever the hoisted values. *)
Lemma centre_skips_collision_binary64
      (k : Hoisted float) (s : SimSystem float) :
  PrimFloat.eqb (distance s) 0%float = true ->
  collide2 k s = s.
Proof.
  intros E. apply collide2_guard. now apply float_eqb_leb.
Qed.

(** The first version in binary64: the test [dist >= maxDist] fails. *)
Lemma centre_skips_collision1_binary64 (s : SimSystem float) :
  constantsSet s ->
  PrimFloat.eqb (distance s) 0%float = true ->
  collide1 s = s.
Proof.
  intros (Hrb & _ & _ & Hrc & _) E. unfold collide1.
  rewrite Hrb, Hrc.
  change (CONTAINER_RADIUS - BALL_RADIUS)%js with 270%float.
  change (sqrt (Ball.x (ball s) * Ball.x (ball s)
                + Ball.y (ball s) * Ball.y (ball s)))%js with (distance s).
  cbn [leb float_JSNumber].
  now rewrite (float_zero_below_wall _ E).
Qed.

(** A sub-step that integrates the ball to the exact centre, run in
    binary64: it ends in the integrated state, at rest, with the spins
    untouched. *)
Example centre_substep_binary64 :
  subStep2 (hoisted (F64.ofZ 1) centredSystem64) centredSystem64
  = integrate (F64.ofZ 1) (GRAVITY * F64.ofZ 1)%js centredSystem64 /\
  subStep1 (F64.ofZ 1) centredSystem64
  = integrate (F64.ofZ 1) (GRAVITY * F64.ofZ 1)%js centredSystem64 /\
  distance (subStep2 (hoisted (F64.ofZ 1) centredSystem64) centredSystem64)
  = 0%float /\
  Ball.vx (ball (subStep2 (hoisted (F64.ofZ 1) centredSystem64) centredSystem64))
  = 0%float /\
  Ball.vy (ball (subStep2 (hoisted (F64.ofZ 1) centredSystem64) centredSystem64))
  = 0%float.
Proof. vm_compute. repeat split. Qed.
End Binary64.

(** * The worker as a whole *)

(** ** What a run of messages keeps *)

Section MoreInvariants.
Context {num : Type} `{JSNumber num}.
Local Open Scope js_scope.

Lemma collide2_initialEnergy (k : Hoisted num) (s : SimSystem num) :
  initialEnergy (collide2 k s) = initialEnergy s.
Proof. unfold collide2. split_ifs; reflexivity. Qed.

Lemma correctEnergy_initialEnergy (stats : Stats num) (s : SimSystem num) :
  initialEnergy (fst (correctEnergy stats s)) = initialEnergy s.
Proof. unfold correctEnergy. split_ifs; reflexivity. Qed.

Lemma update_initialEnergy (dt : num) (s : SimSystem num) :
  initialEnergy (fst (update dt s)) = initialEnergy s.
Proof.
  unfold update. rewrite correctEnergy_initialEnergy.
  set (k := hoisted _ s). generalize SUB_STEPS. intros n.
  induction n as [|n IH]; [reflexivity|].
  cbn [Nat.iter nat_rect]. unfold subStep2 at 1.
  now rewrite collide2_initialEnergy.
Qed.

(** The baseline of a reachable system is the one the constructor stored:
    [update] never writes it and [reset] stores the same value again. *)
Lemma reachable_initialEnergy (s : SimSystem num) :
  reachable s -> initialEnergy s = initialEnergy (newSimSystem (id s)).
Proof.
  induction 1 as [i|s _ _|dt s _ IH].
  - reflexivity.
  - reflexivity.
  - now rewrite update_initialEnergy, update_id.
Qed.

Lemma collide1_id (s : SimSystem num) : id (collide1 s) = id s.
Proof. unfold collide1. split_ifs; reflexivity. Qed.

Lemma correctEnergy1_id (s : SimSystem num) : id (correctEnergy1 s) = id s.
Proof. unfold correctEnergy1. split_ifs; reflexivity. Qed.

Lemma update1_id (dt : num) (s : SimSystem num) : id (update1 dt s) = id s.
Proof.
  unfold update1. rewrite correctEnergy1_id.
  generalize (dt / ofZ (Z.of_nat SUB_STEPS)). intros h.
  generalize SUB_STEPS. intros n.
  induction n as [|n IH]; [reflexivity|].
  rewrite Nat.iter_succ. unfold subStep1 at 1.
  now rewrite collide1_id.
Qed.
End MoreInvariants.

Section RunInvariants.
Context {num : Type} `{JSNumber num} `{Float32 num}.
Local Open Scope js_scope.

Lemma onmessage_coherent (msg : Message num) (w : Worker num) :
  coherent w -> coherent (fst (onmessage msg w)).
Proof.
  intros [Hid Hre]. destruct msg as [ids|dt b g|b g|].
  - split; cbn [onmessage fst systems systemIds].
    + rewrite map_map. rewrite <- (map_id ids) at 2.
      apply map_ext. intros i. apply newSimSystem_id.
    + apply Forall_map. apply Forall_forall. intros i _. apply reach_new.
  - destruct (onmessage_update w dt b g) as [out [-> _]].
    split; cbn [fst systems systemIds].
    + rewrite map_map, <- Hid. apply map_ext. intros s. apply update_id.
    + apply Forall_map. revert Hre. apply Forall_impl.
      intros s. apply reach_update.
  - destruct (onmessage_reset w b g) as [out [-> _]].
    split; cbn [fst systems systemIds].
    + rewrite map_map, <- Hid. apply map_ext. intros s. apply reset_id.
    + apply Forall_map. revert Hre. apply Forall_impl.
      intros s. apply reach_reset.
  - now split.
Qed.

Lemma run_coherent (msgs : list (Message num)) (w : Worker num) :
  coherent w -> coherent (run msgs w).
Proof.
  revert w. induction msgs as [|m msgs IH]; intros w Hw; [exact Hw|].
  cbn [run fold_left]. apply IH. now apply onmessage_coherent.
Qed.

Lemma onmessage_systemIds (msg : Message num) (w : Worker num) :
  systemIds (fst (onmessage msg w))
  = match msg with MsgInit ids => ids | _ => systemIds w end.
Proof.
  destruct msg as [ids|dt b g|b g|]; try reflexivity.
  - now destruct (onmessage_update w dt b g) as [out [-> _]].
  - now destruct (onmessage_reset w b g) as [out [-> _]].
Qed.

Lemma run_systemIds (msgs : list (Message num)) (w : Worker num) :
  systemIds (run msgs w)
  = fold_left (fun ids msg => match msg with
                              | MsgInit ids' => ids'
                              | _ => ids
                              end) msgs (systemIds w).
Proof.
  revert w. induction msgs as [|m msgs IH]; intros w; [reflexivity|].
  cbn [run fold_left]. fold (run msgs (fst (onmessage m w))).
  now rewrite IH, onmessage_systemIds.
Qed.

(** X1.  Whatever messages a worker has handled since it was loaded,
    [systemIds] is the list that the last [init] message carried (empty
    before the first one), its systems carry these ids, in that order,
    every system is in a state reached from the constructor by [update]
    and [reset] calls, and the constant fields of every system (radii,
    masses, moments of inertia) are those that [reset] writes. *)
Theorem worker_keeps_ids_and_constants (msgs : list (Message num)) :
  let w := run msgs initialWorker in
  systemIds w = lastInit msgs /\
  map id (systems w) = lastInit msgs /\
  Forall reachable (systems w) /\
  Forall constantsSet (systems w).
Proof.
  intros w.
  assert (Hw : coherent w).
  { apply run_coherent. split; [reflexivity|constructor]. }
  destruct Hw as [Hid Hre].
  assert (Hids : systemIds w = lastInit msgs)
    by (unfold w; now rewrite run_systemIds).
  split; [exact Hids|]. split; [now rewrite Hid|].
  split; [exact Hre|].
  revert Hre. apply Forall_impl. apply reachable_constants.
Qed.

(** X2.  An [update] message updates every system on its own, in shard
    order: the system at an index afterwards is [update(dt)] of the system
    that was there, and the energy reported is the sum, from 0 and from the
    left, of the values these calls return.  A [reset] message does the
    same with [reset(s.id)] and the baselines it stores.  Neither changes
    [systemIds] or the number of systems. *)
Theorem messages_act_pointwise (w : Worker num) :
  (forall (dt : num) (batchId : nat) (given : option (ArrayBuffer num)),
      exists w' out,
        onmessage (MsgUpdate dt batchId given) w
        = (w', Some (RUpdated batchId out
                       (fold_left (fun t s => t + snd (update dt s))
                                  (systems w) (ofZ 0)))) /\
        systemIds w' = systemIds w /\
        length (systems w') = length (systems w) /\
        forall i, nth_error (systems w') i
                  = option_map (fun s => fst (update dt s))
                               (nth_error (systems w) i)) /\
  (forall (batchId : nat) (given : option (ArrayBuffer num)),
      exists w' out,
        onmessage (MsgReset batchId given) w
        = (w', Some (RReset batchId out
                       (fold_left (fun t s => t + initialEnergy (reset (id s) s))
                                  (systems w) (ofZ 0)))) /\
        systemIds w' = systemIds w /\
        length (systems w') = length (systems w) /\
        forall i, nth_error (systems w') i
                  = option_map (fun s => reset (id s) s)
                               (nth_error (systems w) i)).
Proof.
  split.
  - intros dt batchId given.
    destruct (onmessage_update w dt batchId given) as [out [E _]].
    do 2 eexists. split; [exact E|]. cbn [systems systemIds].
    split; [reflexivity|]. split; [apply length_map|].
    intros i. apply nth_error_map.
  - intros batchId given.
    destruct (onmessage_reset w batchId given) as [out [E _]].
    do 2 eexists. split; [exact E|]. cbn [systems systemIds].
    split; [reflexivity|]. split; [apply length_map|].
    intros i. apply nth_error_map.
Qed.
End RunInvariants.

(** ** The buffer from one message to the next *)

Section MoreBuffer.
Context {num : Type} `{JSNumber num} `{Float32 num}.

Lemma store_other (out : list num) (k j : nat) (v : num) :
  j <> k -> nth_error (store out k v) j = nth_error out j.
Proof.
  revert k j; induction out as [|a out IH]; intros [|k] [|j] Hjk;
    simpl; auto; try congruence.
Qed.

Lemma store_same (out : list num) (k : nat) (v : num) :
  k < length out -> nth_error (store out k v) k = Some (fround v).
Proof.
  revert k; induction out as [|a out IH]; intros [|k] Hk; simpl in *;
    try lia; auto. apply IH. lia.
Qed.

(** X3.  Writing the state of the system at index [i] touches the four
    floats at offsets [4 * i] to [4 * i + 3] only: the buffer keeps its
    length and every other float, whatever its size, and those of the four
    slots that exist hold the rounded [ball.x], [ball.y], [ball.angle] and
    [container.angle], in this order. *)
Theorem writeState_frame (out : list num) (i : nat) (s : SimSystem num) :
  length (writeState out i s) = length out /\
  (forall j, j < 4 * i \/ 4 * i + 4 <= j ->
             nth_error (writeState out i s) j = nth_error out j) /\
  (forall j v, j < 4 -> 4 * i + j < length out ->
               nth_error (slots s) j = Some v ->
               nth_error (writeState out i s) (4 * i + j) = Some v).
Proof.
  unfold writeState, STATE_STRIDE. split; [|split].
  - now rewrite !store_length.
  - intros j Hj. do 4 (rewrite store_other by lia). reflexivity.
  - intros j v Hj Hlen Hv.
    replace (i * 4) with (4 * i) by lia.
    destruct j as [|[|[|[|j]]]]; try lia; simpl in Hv; inversion Hv; subst.
    + do 3 (rewrite store_other by lia).
      rewrite Nat.add_0_r in *. now apply store_same.
    + do 2 (rewrite store_other by lia). apply store_same.
      rewrite store_length. lia.
    + rewrite store_other by lia. apply store_same.
      rewrite !store_length. lia.
    + apply store_same. rewrite !store_length. lia.
Qed.

Lemma acquireBuffer_fits (g : ArrayBuffer num) (n next : nat) :
  byteLength g = n * 4 ->
  acquireBuffer (Some g) n next = (g, next).
Proof.
  intros E. unfold acquireBuffer. rewrite E, Nat.eqb_refl. reflexivity.
Qed.

(** X4.  The buffer of a reply fits the next message: when an [update] or a
    [reset] message carries the buffer that the previous [update] or
    [reset] reply returned, the worker writes into that object and
    allocates nothing. *)
Theorem reply_buffer_is_reused
  (w : Worker num) (first : Message num) (w1 : Worker num)
  (r1 : Reply num) (out1 : ArrayBuffer num) :
  onmessage first w = (w1, Some r1) ->
  (exists b e, r1 = RUpdated b out1 e) \/ (exists b e, r1 = RReset b out1 e) ->
  (forall dt batchId, exists w2 out2 e2,
      onmessage (MsgUpdate dt batchId (Some out1)) w1
      = (w2, Some (RUpdated batchId out2 e2)) /\
      ref out2 = ref out1 /\ nextRef w2 = nextRef w1) /\
  (forall batchId, exists w2 out2 e2,
      onmessage (MsgReset batchId (Some out1)) w1
      = (w2, Some (RReset batchId out2 e2)) /\
      ref out2 = ref out1 /\ nextRef w2 = nextRef w1).
Proof.
  intros E1 Hr1.
  assert (Hlen : byteLength out1 = length (systems w1) * STATE_STRIDE * 4).
  { destruct first as [ids|dt b g|b g|].
    - cbn in E1. inversion E1; subst.
      destruct Hr1 as [(b & e & Hr)|(b & e & Hr)]; discriminate.
    - destruct (onmessage_update w dt b g) as [out [E [Hf [Hs _]]]].
      rewrite E in E1. inversion E1; subst; clear E1.
      destruct Hr1 as [(b' & e & Hr)|(b' & e & Hr)]; inversion Hr; subst.
      rewrite (byteLength_layout _ _ Hf Hs). cbn [systems].
      unfold STATE_STRIDE. lia.
    - destruct (onmessage_reset w b g) as [out [E [Hf [Hs _]]]].
      rewrite E in E1. inversion E1; subst; clear E1.
      destruct Hr1 as [(b' & e & Hr)|(b' & e & Hr)]; inversion Hr; subst.
      rewrite (byteLength_layout _ _ Hf Hs). cbn [systems].
      unfold STATE_STRIDE. lia.
    - cbn in E1. inversion E1. }
  split.
  - intros dt batchId.
    destruct (onmessage_update w1 dt batchId (Some out1)) as [out [E [_ [_ Hr]]]].
    rewrite (acquireBuffer_fits _ _ _ Hlen) in E, Hr.
    do 3 eexists. split; [exact E|]. split; [exact Hr|reflexivity].
  - intros batchId.
    destruct (onmessage_reset w1 batchId (Some out1)) as [out [E [_ [_ Hr]]]].
    rewrite (acquireBuffer_fits _ _ _ Hlen) in E, Hr.
    do 3 eexists. split; [exact E|]. split; [exact Hr|reflexivity].
Qed.

(** X5.  A worker without systems (before any [init], or after an [init]
    with no ids) still answers [update] and [reset]: the buffer of the
    reply has 0 bytes, the energy is 0 and the worker has no systems
    afterwards. *)
Theorem empty_shard_replies (w : Worker num) :
  systems w = [] ->
  (forall dt batchId given, exists w' out,
      onmessage (MsgUpdate dt batchId given) w
      = (w', Some (RUpdated batchId out (ofZ 0))) /\
      byteLength out = 0 /\ f32 out = [] /\ systems w' = []) /\
  (forall batchId given, exists w' out,
      onmessage (MsgReset batchId given) w
      = (w', Some (RReset batchId out (ofZ 0))) /\
      byteLength out = 0 /\ f32 out = [] /\ systems w' = []).
Proof.
  intros Hs. split.
  - intros dt batchId given.
    destruct (onmessage_update w dt batchId given) as [out [E [Hf [Hsp _]]]].
    rewrite Hs in *. cbn [map fold_left layout flat_map] in *.
    do 2 eexists. split; [exact E|].
    split; [|split; [exact Hf|reflexivity]].
    unfold byteLength. now rewrite Hf, Hsp.
  - intros batchId given.
    destruct (onmessage_reset w batchId given) as [out [E [Hf [Hsp _]]]].
    rewrite Hs in *. cbn [map fold_left layout flat_map] in *.
    do 2 eexists. split; [exact E|].
    split; [|split; [exact Hf|reflexivity]].
    unfold byteLength. now rewrite Hf, Hsp.
Qed.

(** X6.  A [reset] right after [init] changes nothing: the systems are
    those that [init] built, one for each id, and the buffer of the reply
    holds their start positions. *)
Theorem reset_after_init_changes_nothing
  (w : Worker num) (ids : list num) (batchId : nat)
  (given : option (ArrayBuffer num)) :
  let w0 := fst (onmessage (MsgInit ids) w) in
  exists w1 out e,
    onmessage (MsgReset batchId given) w0 = (w1, Some (RReset batchId out e)) /\
    systems w1 = systems w0 /\
    systemIds w1 = ids /\
    length (systems w1) = length ids /\
    f32 out = layout (map newSimSystem ids).
Proof.
  intros w0.
  destruct (onmessage_reset w0 batchId given) as [out [E [Hf _]]].
  assert (Hsame : map (fun s => reset (id s) s) (systems w0) = systems w0).
  { subst w0. cbn [onmessage fst systems]. rewrite map_map.
    apply map_ext. intros i. reflexivity. }
  rewrite Hsame in E, Hf.
  do 3 eexists. split; [exact E|]. cbn [systems systemIds].
  split; [reflexivity|]. split; [reflexivity|].
  split; [subst w0; cbn [onmessage fst systems]; apply length_map|].
  exact Hf.
Qed.
End MoreBuffer.

(** ** The two versions of the handler *)

Section Versions.
Context {num : Type} `{JSNumber num} `{Float32 num}.
Local Open Scope js_scope.

Lemma layout_compact (ss : list (SimSystem num)) :
  layout ss = flat_map compact (map serialize ss).
Proof.
  unfold layout. induction ss as [|s ss IH]; [reflexivity|].
  cbn [map flat_map]. now rewrite IH.
Qed.

Lemma sumEnergy_reset (ss : list (SimSystem num)) (t : num) :
  fold_left (fun sum s => sum + total (calculateEnergy s))
            (map (fun s => reset (id s) s) ss) t
  = fold_left (fun t s => t + initialEnergy (reset (id s) s)) ss t.
Proof.
  revert t. induction ss as [|s ss IH]; intros t; [reflexivity|].
  cbn [map fold_left]. rewrite IH. reflexivity.
Qed.

(** X7.  The two versions of the handler answer [reset] alike: they leave
    the same systems and report the same total energy, and the buffer of
    the second version holds, system after system, the rounded [ball.x],
    [ball.y], [ball.angle] and [container.angle] of the states that the
    first version serializes. *)
Theorem reset_versions_agree
  (w : Worker num) (batchId : nat) (given : option (ArrayBuffer num)) :
  exists w' out e states,
    onmessage (MsgReset batchId given) w = (w', Some (RReset batchId out e)) /\
    onmessage1 Msg1Reset (systems w)
    = (systems w', Posted1 (R1Reset states e)) /\
    map Serialized.id states = map id (systems w) /\
    f32 out = flat_map compact states.
Proof.
  destruct (onmessage_reset w batchId given) as [out [E [Hf _]]].
  do 4 eexists. split; [exact E|]. cbn [systems onmessage1].
  split; [|split].
  - unfold sumEnergy. rewrite sumEnergy_reset. reflexivity.
  - rewrite !map_map. apply map_ext. intros s. reflexivity.
  - rewrite Hf. apply layout_compact.
Qed.
End Versions.

Section VersionsExact.
Context `{Float32 R}.
Local Open Scope R_scope.

(** The sub-step loops of the two versions, in exact arithmetic. *)
Lemma subSteps_versions_agree (h : R) (n : nat) (s : SimSystem R) :
  constantsSet s ->
  Nat.iter n (subStep1 h) s = Nat.iter n (subStep2 (hoisted h s)) s.
Proof.
  intros C. induction n as [|n IH]; [reflexivity|].
  rewrite !Nat.iter_succ, IH.
  unfold subStep1 at 1. unfold subStep2 at 1 3.
  change (subDt (hoisted h s)) with h.
  change (gravitySubDt (hoisted h s)) with (GRAVITY * h)%js.
  apply collide_versions_agree; [exact C|].
  now apply integrate_constants, subSteps2_constants.
Qed.

(** Neither correction moves the ball or turns anything. *)
Lemma correctEnergy1_slots (s : SimSystem R) :
  slots (correctEnergy1 s) = slots s.
Proof. unfold correctEnergy1. split_ifs; reflexivity. Qed.

Lemma correctEnergy_slots (stats : Stats R) (s : SimSystem R) :
  slots (fst (correctEnergy stats s)) = slots s.
Proof. unfold correctEnergy. split_ifs; reflexivity. Qed.

Lemma update_versions_slots (dt : R) (s : SimSystem R) :
  constantsSet s ->
  slots (update1 dt s) = slots (fst (update dt s)).
Proof.
  intros C. unfold update1, update.
  rewrite correctEnergy1_slots, correctEnergy_slots.
  now rewrite (subSteps_versions_agree _ _ _ C).
Qed.

Lemma layout_update_versions (dt : R) (ss : list (SimSystem R)) :
  Forall constantsSet ss ->
  layout (map (fun s => fst (update dt s)) ss)
  = flat_map compact (map serialize (map (update1 dt) ss)).
Proof.
  induction 1 as [|s ss Cs _ IH]; [reflexivity|].
  cbn [map layout flat_map].
  change (compact (serialize (update1 dt s))) with (slots (update1 dt s)).
  rewrite (update_versions_slots dt s Cs). f_equal. exact IH.
Qed.

(** X8.  In exact arithmetic the two versions of the handler answer one
    [update] message, from the same systems, with the same positions and
    angles: the buffer of the second version holds, system after system,
    the stored [ball.x], [ball.y], [ball.angle] and [container.angle] of
    the states that the first version serializes.  (The velocities differ,
    as the corrections do.) *)
Theorem update_versions_agree_on_positions
  (w : Worker R) (dt : R) (batchId : nat) (given : option (ArrayBuffer R)) :
  Forall constantsSet (systems w) ->
  exists w' out e systems1 states e1,
    onmessage (MsgUpdate dt batchId given) w
    = (w', Some (RUpdated batchId out e)) /\
    onmessage1 (Msg1Update (Some dt)) (systems w)
    = (systems1, Posted1 (R1Updated states e1)) /\
    map Serialized.id states = map id (systems w') /\
    f32 out = flat_map compact states.
Proof.
  intros C.
  destruct (onmessage_update w dt batchId given) as [out [E [Hf _]]].
  do 6 eexists. split; [exact E|]. cbn [systems onmessage1].
  split; [reflexivity|]. split.
  - rewrite !map_map. apply map_ext. intros s.
    cbn [Serialized.id serialize]. now rewrite update_id, update1_id.
  - rewrite Hf. now apply layout_update_versions.
Qed.

Lemma update_returns_energy (dt : R) (s : SimSystem R) :
  snd (update dt s) = total (calculateEnergy (fst (update dt s))).
Proof. unfold update. apply correctEnergy_returns_energy. Qed.

Lemma fold_update_energy (dt : R) (ss : list (SimSystem R)) (t : R) :
  fold_left (fun t s => t + snd (update dt s))%js ss t
  = fold_left (fun sum s => sum + total (calculateEnergy s))%js
              (map (fun s => fst (update dt s)) ss) t.
Proof.
  revert t. induction ss as [|s ss IH]; intros t; [reflexivity|].
  cbn [map fold_left]. rewrite IH, update_returns_energy. reflexivity.
Qed.

(** X9.  In exact arithmetic the energy that an [update] reply reports is
    the total energy of the worker's systems as the call leaves them (the
    sum of [calculateEnergy().total] over them, which is what the first
    version computes), corrections included. *)
Theorem update_reply_reports_current_energy
  (w : Worker R) (dt : R) (batchId : nat) (given : option (ArrayBuffer R)) :
  exists w' out,
    onmessage (MsgUpdate dt batchId given) w
    = (w', Some (RUpdated batchId out (sumEnergy (systems w')))).
Proof.
  destruct (onmessage_update w dt batchId given) as [out [E _]].
  rewrite E, fold_update_energy.
  match goal with |- exists _ _, (?a, _) = _ => exists a, out end.
  reflexivity.
Qed.

Lemma fold_baselines (ss : list (SimSystem R)) (t : R) :
  fold_left (fun t s => t + initialEnergy (reset (id s) s))%js ss t
  = t + INR (length ss) * 2158200.
Proof.
  revert t. induction ss as [|s ss IH]; intros t.
  - simpl. ring.
  - cbn [fold_left]. rewrite IH.
    change (length (s :: ss)) with (S (length ss)). rewrite S_INR.
    assert (E : initialEnergy (reset (id s) s) = 2158200).
    { unfold reset, calculateEnergy. fields. js_unfold. field. }
    rewrite E. cbn [add R_JSNumber]. ring.
Qed.

(** X10.  In exact arithmetic the energy that a [reset] reply reports is
    [2158200] (= [BALL_MASS * GRAVITY * 220]) for each system of the
    worker, whatever the ids. *)
Theorem reset_reply_reports_baselines
  (w : Worker R) (batchId : nat) (given : option (ArrayBuffer R)) :
  exists w' out,
    onmessage (MsgReset batchId given) w
    = (w', Some (RReset batchId out (INR (length (systems w)) * 2158200))).
Proof.
  destruct (onmessage_reset w batchId given) as [out [E _]].
  rewrite E, fold_baselines. cbn [ofZ R_JSNumber]. rewrite Rplus_0_l.
  do 2 eexists. reflexivity.
Qed.
End VersionsExact.

(** * The mechanics of a call, in exact real arithmetic *)

Section Mechanics.
Local Open Scope R_scope.

(** X11.  The energy budget of a sub-step: the integration loses
    [m * (g * h)^2 / 2] = [5 * (981 * h)^2], the collision response keeps
    the kinetic energy, and the push back to the wall changes the potential
    energy by [m * g] = 9810 times the height it moves the ball. *)
Theorem substep_energy_budget (h : R) (s : SimSystem R) :
  constantsSet s ->
  let s1 := integrate h (GRAVITY * h)%js s in
  let s2 := subStep2 (hoisted h s) s in
  total (calculateEnergy s2)
  = total (calculateEnergy s) - 5 * (981 * h) * (981 * h)
    - 9810 * (Ball.y (ball s2) - Ball.y (ball s1)).
Proof.
  intros C s1 s2.
  assert (C1 : constantsSet s1) by now apply integrate_constants.
  assert (Hk : kinetic s2 = kinetic s1)
    by (apply (collide2_kinetic h s s1); assumption).
  assert (C2 : constantsSet s2) by now apply collide2_constants.
  assert (Hi := integrate_energy h s). fold s1 in Hi.
  destruct C as (_ & Hm & _).
  destruct C1 as (_ & Hm1 & _). destruct C2 as (_ & Hm2 & _).
  unfold kinetic in Hk.
  assert (Hpe : forall u : SimSystem R,
             Ball.mass (ball u) = BALL_MASS ->
             pe (calculateEnergy u) = - 9810 * Ball.y (ball u)).
  { intros u Hu. unfold calculateEnergy. fields. rewrite Hu. js_unfold. field. }
  rewrite (Hpe s1 Hm1), (Hpe s2 Hm2) in Hk.
  rewrite Hm in Hi. unfold BALL_MASS in Hi.
  cbn [ofZ R_JSNumber] in Hi. lra.
Qed.

(** The unit normal at the ball, for a ball at or beyond the wall. *)
Lemma unit_normal (x y : R) :
  270 * 270 <= x * x + y * y ->
  let d := R_sqrt.sqrt (x * x + y * y) in
  270 <= d /\ (x * (1 / d)) * (x * (1 / d)) + (y * (1 / d)) * (y * (1 / d)) = 1.
Proof.
  intros Hwall d.
  assert (Hd2 : d * d = x * x + y * y) by (apply sqrt_sqrt; nra).
  assert (Hd0 : 0 <= d) by apply sqrt_pos.
  assert (Hd : 270 <= d) by nra.
  split; [exact Hd|].
  replace (x * (1 / d) * (x * (1 / d)) + y * (1 / d) * (y * (1 / d)))
    with ((x * x + y * y) / (d * d)) by (field; lra).
  rewrite <- Hd2. field; lra.
Qed.

(** X12.  An elastic contact: when the ball is at or beyond the wall and
    moves outwards, the collision response reverses the velocity of the
    ball along the normal, and it reverses the sliding velocity between the
    ball's surface and the wall at the contact point. *)
Theorem collision_reverses_contact_velocity (h : R) (s0 s : SimSystem R) :
  constantsSet s0 -> constantsSet s ->
  270 * 270 <= Ball.x (ball s) * Ball.x (ball s)
               + Ball.y (ball s) * Ball.y (ball s) ->
  0 < normalVelocity (normalX s) (normalY s) s ->
  let s' := collide2 (hoisted h s0) s in
  normalVelocity (normalX s) (normalY s) s'
  = - normalVelocity (normalX s) (normalY s) s /\
  slipVelocity (normalX s) (normalY s) s'
  = - slipVelocity (normalX s) (normalY s) s.
Proof.
  intros C0 C Hwall Hvn s'.
  subst s'. unfold normalVelocity, slipVelocity, normalX, normalY in *.
  destruct s as [i [x y vx vy a w r m I] [ca cw cr cm cI] E].
  destruct s0 as [i0 [x0 y0 vx0 vy0 a0 w0 r0 m0 I0] [ca0 cw0 cr0 cm0 cI0] E0].
  unfold constantsSet in *. fields.
  destruct C0 as (-> & -> & -> & -> & -> & ->).
  destruct C as (-> & -> & -> & -> & -> & ->).
  destruct (unit_normal x y Hwall) as [Hd Hn].
  set (d := R_sqrt.sqrt (x * x + y * y)) in *.
  unfold collide2, hoisted, setPos, setVel. fields. js_unfold. fold d.
  assert (Hsq : Exact.leb ((300 - 30) * (300 - 30)) (x * x + y * y) = true)
    by (apply Exact_leb_true; lra).
  assert (Hpos : Exact.leb d 0 = false) by (apply Exact_leb_false; lra).
  rewrite Hsq, Hpos.
  assert (Enx : x * (1 / d) = x / d) by (field; lra).
  assert (Eny : y * (1 / d) = y / d) by (field; lra).
  rewrite Enx, Eny in *.
  set (nx := x / d) in *. set (ny := y / d) in *.
  assert (Hv : Exact.ltb 0 (vx * nx + vy * ny) = true)
    by (now apply Exact_ltb_true).
  rewrite Hv.
  clearbody nx ny. clear Enx Eny.
  split_ifs; fields; js_unfold; split;
    match goal with
    | |- _ = ?K =>
        first
          [ transitivity
              (K + (- 2 * (vx * nx + vy * ny)) * (nx * nx + ny * ny - 1));
            [field|rewrite Hn; ring]
          | transitivity
              (K + (- 2 * (- vx * ny + vy * nx + 30 * w - 300 * cw)
                    * (200 / 61) / 10)
                   * (nx * nx + ny * ny - 1));
            [field|rewrite Hn; ring] ]
    end.
Qed.

(** X13.  The impulses of a collision exert no net torque about the
    container centre: the angular momentum of ball (orbital and spin) and
    container after the collision code is the one that the velocities
    before it have at the position the ball is left in. *)
Theorem collision_conserves_angular_momentum (h : R) (s0 s : SimSystem R) :
  constantsSet s0 -> constantsSet s ->
  let s' := collide2 (hoisted h s0) s in
  angularMomentum s'
  = angularMomentum (setPos (Ball.x (ball s')) (Ball.y (ball s')) s).
Proof.
  intros C0 C s'. subst s'. unfold angularMomentum.
  destruct s as [i [x y vx vy a w r m I] [ca cw cr cm cI] E].
  destruct s0 as [i0 [x0 y0 vx0 vy0 a0 w0 r0 m0 I0] [ca0 cw0 cr0 cm0 cI0] E0].
  unfold constantsSet in *. fields.
  destruct C0 as (-> & -> & -> & -> & -> & ->).
  destruct C as (-> & -> & -> & -> & -> & ->).
  unfold collide2, hoisted, setPos, setVel. fields. js_unfold.
  destruct (Exact.leb ((300 - 30) * (300 - 30)) (x * x + y * y)) eqn:Hwall;
    [|fields; reflexivity].
  apply Exact_leb_true in Hwall.
  assert (Hwall' : 270 * 270 <= x * x + y * y) by lra.
  destruct (unit_normal x y Hwall') as [Hd Hn].
  set (d := R_sqrt.sqrt (x * x + y * y)) in *.
  assert (Hpos : Exact.leb d 0 = false) by (apply Exact_leb_false; lra).
  rewrite Hpos.
  assert (Hx : x = d * (x * (1 / d))) by (field; lra).
  assert (Hy : y = d * (y * (1 / d))) by (field; lra).
  set (nx := x * (1 / d)) in *. set (ny := y * (1 / d)) in *.
  clearbody nx ny.
  destruct (Exact.ltb 0 (d - (300 - 30))) eqn:Hpen;
    (destruct (Exact.ltb 0 (vx * nx + vy * ny)); fields; [|reflexivity]).
  - rewrite Hx, Hy.
    match goal with
    | |- _ = ?K =>
        transitivity
          (K + (-2 * (- vx * ny + vy * nx + 30 * w - 300 * cw) * (200 / 61) * 270)
               * (nx * nx + ny * ny - 1)); [field|rewrite Hn; ring]
    end.
  - apply Exact_ltb_false in Hpen. assert (Ed : d = 270) by lra.
    rewrite Hx, Hy, Ed.
    match goal with
    | |- _ = ?K =>
        transitivity
          (K + (-2 * (- vx * ny + vy * nx + 30 * w - 300 * cw) * (200 / 61) * 270)
               * (nx * nx + ny * ny - 1)); [field|rewrite Hn; ring]
    end.
Qed.

(** A scale between 1 and the required one leaves the kinetic energy
    between the current and the target one. *)
Lemma partial_scale_between (c t r u : R) :
  0 < c -> 0 <= r -> r * r = t / c ->
  (1 <= u <= r \/ r <= u <= 1) ->
  between c t (c * u * u).
Proof.
  intros Hc Hr Hrr Hu.
  assert (Ht : t = c * (r * r)) by (rewrite Hrr; field; lra).
  unfold between. rewrite Ht.
  destruct Hu as [[H1 H2]|[H1 H2]]; [left|right].
  - assert (A : 0 <= c * (u * u - 1)) by (apply Rmult_le_pos; nra).
    assert (B : 0 <= c * (r * r - u * u)) by (apply Rmult_le_pos; nra).
    lra.
  - assert (H0 : 0 <= u) by lra.
    assert (A : 0 <= c * (1 - u * u)) by (apply Rmult_le_pos; nra).
    assert (B : 0 <= c * (u * u - r * r)) by (apply Rmult_le_pos; nra).
    lra.
Qed.

(** The clamp keeps the scale between 1 and the required one. *)
Lemma clamp_between (r : R) :
  let u := Rmax (99 / 100) (Rmin (101 / 100) r) in
  1 <= u <= r \/ r <= u <= 1.
Proof.
  intros u. subst u.
  unfold Rmax, Rmin.
  destruct (Rle_dec (101 / 100) r); destruct (Rle_dec (99 / 100) _); lra.
Qed.

(** X14.  The correction of the second version never overshoots: the
    energy that [correctEnergy] returns lies between the energy it was
    given and the baseline (it is the former when nothing is corrected, the
    latter when the clamp does not cut). *)
Theorem correction_never_overshoots (stats : Stats R) (s : SimSystem R) :
  between (total stats) (initialEnergy s) (snd (correctEnergy stats s)).
Proof.
  assert (Hsame : between (total stats) (initialEnergy s) (total stats)).
  { unfold between.
    destruct (Rle_dec (total stats) (initialEnergy s)); [left|right]; lra. }
  unfold correctEnergy.
  destruct (falsy (initialEnergy s) || (initialEnergy s <? decimal 1 1000000)%js);
    [exact Hsame|].
  destruct ((initialEnergy s - pe stats >? decimal 1 1000000)%js) eqn:Gt;
    [|exact Hsame].
  destruct ((total stats - pe stats >? decimal 1 1000000)%js) eqn:Gc;
    [|exact Hsame].
  cbn [andb isFinite R_JSNumber negb snd].
  revert Gt Gc. js_unfold. intros Gt Gc.
  apply Exact_ltb_true in Gt, Gc.
  set (c := total stats - pe stats) in *.
  set (t := initialEnergy s - pe stats) in *.
  rewrite clampedScale_exact.
  set (r := R_sqrt.sqrt (t / c)).
  assert (Hr : 0 <= r) by apply sqrt_pos.
  assert (Hrr : r * r = t / c).
  { apply sqrt_sqrt. apply Rlt_le, Rdiv_lt_0_compat; lra. }
  pose proof (clamp_between r) as Hu. cbv zeta in Hu.
  set (u := Rmax (99 / 100) (Rmin (101 / 100) r)) in *.
  assert (Hb : between c t (c * u * u))
    by (apply (partial_scale_between c t r u); auto; lra).
  unfold between in *.
  replace (total stats) with (pe stats + c) by (unfold c; ring).
  replace (initialEnergy s) with (pe stats + t) by (unfold t; ring).
  lra.
Qed.

(** X15.  The correction of the first version (a tenth of the required
    change of scale, no clamp) never overshoots either: the energy of the
    state that [correctEnergy] leaves lies between the energy before the
    call and the baseline. *)
Theorem first_correction_never_overshoots (s : SimSystem R) :
  between (total (calculateEnergy s)) (initialEnergy s)
          (total (calculateEnergy (correctEnergy1 s))).
Proof.
  assert (Hsame : between (total (calculateEnergy s)) (initialEnergy s)
                          (total (calculateEnergy s))).
  { unfold between.
    destruct (Rle_dec (total (calculateEnergy s)) (initialEnergy s));
      [left|right]; lra. }
  unfold correctEnergy1.
  destruct (falsy (initialEnergy s) || (initialEnergy s <? decimal 1 1000000)%js);
    [exact Hsame|].
  destruct ((initialEnergy s - pe (calculateEnergy s) >? decimal 1 1000000)%js)
    eqn:Gt; [|exact Hsame].
  destruct ((total (calculateEnergy s) - pe (calculateEnergy s)
             >? decimal 1 1000000)%js) eqn:Gc; [|exact Hsame].
  cbn [andb].
  revert Gt Gc. cbn [ltb decimal div ofZ sub add mul sqrt R_JSNumber].
  intros Gt Gc.
  apply Exact_ltb_true in Gt, Gc.
  fold (kinetic s) in *.
  set (t := initialEnergy s - pe (calculateEnergy s)) in *.
  set (r := R_sqrt.sqrt (t / kinetic s)).
  assert (Hr : 0 <= r) by apply sqrt_pos.
  assert (Hrr : r * r = t / kinetic s).
  { apply sqrt_sqrt. apply Rlt_le, Rdiv_lt_0_compat; lra. }
  set (u := 1 + (r - 1) * (1 / 10)).
  assert (Hu : 1 <= u <= r \/ r <= u <= 1).
  { unfold u. destruct (Rle_dec 1 r); [left|right]; lra. }
  assert (Hb : between (kinetic s) t (kinetic s * u * u))
    by (apply (partial_scale_between _ t r u); auto; lra).
  assert (Hk := scaleVelocities_kinetic u s).
  assert (Hpe : pe (calculateEnergy (scaleVelocities u s))
                = pe (calculateEnergy s)) by reflexivity.
  unfold kinetic in Hk, Hb. rewrite Hpe in Hk.
  unfold between in *. unfold t in *.
  lra.
Qed.
(** After the collision code the ball is inside the wall, or on it and
    not moving outwards. *)
Lemma collide2_insideOrTurned (k : Hoisted R) (s : SimSystem R) :
  maxDist k = 270 -> maxDistSq k = 270 * 270 ->
  insideOrTurned (collide2 k s).
Proof.
  intros Hm Hm2. unfold insideOrTurned. cbv zeta.
  destruct s as [i [x y vx vy a w r m I] [ca cw cr cm cI] E].
  unfold collide2, setPos, setVel. fields. js_unfold. rewrite Hm, Hm2.
  destruct (Exact.leb (270 * 270) (x * x + y * y)) eqn:Hwall;
    [|apply Exact_leb_false in Hwall; fields; left; lra].
  apply Exact_leb_true in Hwall. right.
  destruct (unit_normal x y Hwall) as [Hd Hn].
  set (d := R_sqrt.sqrt (x * x + y * y)) in *.
  assert (Hpos : Exact.leb d 0 = false) by (apply Exact_leb_false; lra).
  rewrite Hpos.
  assert (Hx : x = d * (x * (1 / d))) by (field; lra).
  assert (Hy : y = d * (y * (1 / d))) by (field; lra).
  set (nx := x * (1 / d)) in *. set (ny := y * (1 / d)) in *.
  clearbody nx ny.
  assert (Hpx : forall p, p = 270 -> p * nx * (p * nx) + p * ny * (p * ny) = 270 * 270).
  { intros p ->. transitivity (270 * 270 * (nx * nx + ny * ny)); [ring|].
    rewrite Hn. ring. }
  destruct (Exact.ltb 0 (d - 270)) eqn:Hpen.
  - replace (x - nx * (d - 270)) with (270 * nx) by (rewrite Hx at 1; ring).
    replace (y - ny * (d - 270)) with (270 * ny) by (rewrite Hy at 1; ring).
    destruct (Exact.ltb 0 (vx * nx + vy * ny)) eqn:Hvn; fields;
      (split; [now apply Hpx|]).
    + apply Exact_ltb_true in Hvn.
      match goal with
      | |- ?L <= 0 =>
          replace L with
            (- 270 * (vx * nx + vy * ny)
             + (270 * (- 2 * (vx * nx + vy * ny))) * (nx * nx + ny * ny - 1))
            by ring
      end.
      rewrite Hn. nra.
    + apply Exact_ltb_false in Hvn. nra.
  - apply Exact_ltb_false in Hpen. assert (Ed : d = 270) by lra.
    rewrite Ed in Hx, Hy.
    destruct (Exact.ltb 0 (vx * nx + vy * ny)) eqn:Hvn; fields;
      (split; [rewrite Hx, Hy; now apply Hpx|]).
    + apply Exact_ltb_true in Hvn. rewrite Hx, Hy.
      match goal with
      | |- ?L <= 0 =>
          replace L with
            (- 270 * (vx * nx + vy * ny)
             + (270 * (- 2 * (vx * nx + vy * ny))) * (nx * nx + ny * ny - 1))
            by ring
      end.
      rewrite Hn. nra.
    + apply Exact_ltb_false in Hvn. rewrite Hx, Hy. nra.
Qed.

Lemma scaleVelocities_insideOrTurned (scale : R) (s : SimSystem R) :
  0 <= scale -> insideOrTurned s -> insideOrTurned (scaleVelocities scale s).
Proof.
  unfold insideOrTurned. cbv zeta.
  intros Hs [Hin|[Hon Hv]]; [left; exact Hin|right].
  split; [exact Hon|].
  unfold scaleVelocities, setVel. fields. cbn [mul R_JSNumber].
  set (V := Ball.vx (ball s) * Ball.x (ball s)
            + Ball.vy (ball s) * Ball.y (ball s)) in *.
  replace (Ball.vx (ball s) * scale * Ball.x (ball s)
           + Ball.vy (ball s) * scale * Ball.y (ball s))
    with (- (scale * - V)) by (unfold V; ring).
  assert (0 <= scale * - V) by (apply Rmult_le_pos; lra).
  lra.
Qed.

(** X21.  In exact arithmetic every [update] leaves the ball strictly
    inside the wall, or on the wall and not moving outwards. *)
Theorem ball_on_wall_moves_inwards (dt : R) (s : SimSystem R) :
  constantsSet s -> insideOrTurned (fst (update dt s)).
Proof.
  intros C. unfold update.
  set (k := hoisted (dt / ofZ (Z.of_nat SUB_STEPS))%js s).
  assert (Hs1 : insideOrTurned (Nat.iter SUB_STEPS (subStep2 k) s)).
  { change SUB_STEPS with (S 15). rewrite Nat.iter_succ. unfold subStep2 at 1.
    destruct C as (Hrb & _ & _ & Hrc & _).
    apply collide2_insideOrTurned; unfold k, hoisted; fields;
      rewrite Hrb, Hrc; js_unfold; lra. }
  set (s1 := Nat.iter SUB_STEPS (subStep2 k) s) in *.
  destruct (correctEnergy_cases (calculateEnergy s1) s1) as [E|[_ E]];
    rewrite E; cbn [fst]; [exact Hs1|].
  destruct (negb _); [|exact Hs1].
  apply scaleVelocities_insideOrTurned; [|exact Hs1].
  pose proof (clampedScale_bounds
                (initialEnergy s1 - pe (calculateEnergy s1))
                (total (calculateEnergy s1) - pe (calculateEnergy s1))) as Hb.
  cbn [sub R_JSNumber]. lra.
Qed.

(** X22.  [update(0)], in exact arithmetic, for a ball strictly inside the
    wall: no time passes, the sub-steps change nothing, and the energy
    correction is applied all the same. *)
Theorem update_zero_is_the_correction (s : SimSystem R) :
  constantsSet s ->
  Ball.x (ball s) * Ball.x (ball s) + Ball.y (ball s) * Ball.y (ball s)
  < 270 * 270 ->
  update 0 s = correctEnergy (calculateEnergy s) s.
Proof.
  intros C Hin. unfold update.
  set (k := hoisted (0 / ofZ (Z.of_nat SUB_STEPS))%js s).
  assert (Hstep : subStep2 k s = s).
  { unfold subStep2, k, hoisted. fields.
    destruct C as (Hrb & _ & _ & Hrc & _).
    destruct s as [i [x y vx vy a w r m I] [ca cw cr cm cI] E].
    fields. subst r cr.
    assert (Ei : integrate (0 / ofZ (Z.of_nat SUB_STEPS))%js
                           (GRAVITY * (0 / ofZ (Z.of_nat SUB_STEPS)))%js
                   {| id := i;
                      ball := Ball.mk x y vx vy a w BALL_RADIUS m I;
                      container := Container.mk ca cw CONTAINER_RADIUS cm cI;
                      initialEnergy := E |}
                 = {| id := i;
                      ball := Ball.mk x y vx vy a w BALL_RADIUS m I;
                      container := Container.mk ca cw CONTAINER_RADIUS cm cI;
                      initialEnergy := E |}).
    { unfold integrate. fields. js_unfold. simpl IZR.
      f_equal; f_equal; field. }
    rewrite Ei. unfold collide2. fields. js_unfold.
    assert (G : Exact.leb ((300 - 30) * (300 - 30)) (x * x + y * y) = false)
      by (apply Exact_leb_false; lra).
    now rewrite G. }
  assert (Hiter : forall n, Nat.iter n (subStep2 k) s = s).
  { induction n as [|n IH]; [reflexivity|].
    now rewrite Nat.iter_succ, IH. }
  now rewrite Hiter.
Qed.
End Mechanics.

(** ** The first call after a reset *)

Section FirstCall.
Local Open Scope R_scope.

Lemma newSimSystem_freeFall (i h : R) : newSimSystem i = freeFall i h 0.
Proof.
  unfold newSimSystem, reset, freeFall, calculateEnergy. fields. js_unfold.
  simpl INR.
  f_equal; [f_equal; field|f_equal; field|field].
Qed.

Lemma freeFall_inside (i h : R) (n : nat) :
  0 <= i <= 64 -> 0 <= h <= 1 / 160 -> (n <= 16)%nat ->
  Ball.x (ball (freeFall i h n)) * Ball.x (ball (freeFall i h n))
  + Ball.y (ball (freeFall i h n)) * Ball.y (ball (freeFall i h n))
  < 270 * 270.
Proof.
  intros Hi Hh Hn. unfold freeFall. fields.
  assert (HN : 0 <= INR n <= 16).
  { split; [apply pos_INR|]. replace 16 with (INR 16) by (simpl; lra).
    now apply le_INR. }
  set (N := INR n) in *.
  assert (Hq : 0 <= N * (N + 1) / 2 <= 136) by nra.
  assert (Hhh : 0 <= h * h <= 1 / 25600) by nra.
  set (q := N * (N + 1) / 2) in *. set (hh := h * h) in *.
  assert (Hp : 0 <= 981 * hh * q <= 6).
  { replace (981 * hh * q) with (981 * (hh * q)) by ring.
    assert (0 <= hh * q) by (apply Rmult_le_pos; lra).
    assert (hh * q <= 1 / 25600 * 136).
    { apply Rmult_le_compat; lra. }
    lra. }
  replace (981 * h * h * q) with (981 * hh * q) by (unfold hh; ring).
  set (p := 981 * hh * q) in *.
  nra.
Qed.

Lemma freeFall_step (i h : R) (n : nat) (k : Hoisted R) :
  0 <= i <= 64 -> 0 <= h <= 1 / 160 -> (S n <= 16)%nat ->
  subDt k = h -> gravitySubDt k = 981 * h -> maxDistSq k = 270 * 270 ->
  subStep2 k (freeFall i h n) = freeFall i h (S n).
Proof.
  intros Hi Hh Hn Hk1 Hk2 Hk3.
  pose proof (freeFall_inside i h (S n) Hi Hh Hn) as Hin.
  unfold subStep2. rewrite Hk1, Hk2.
  assert (E : integrate h (981 * h) (freeFall i h n) = freeFall i h (S n)).
  { unfold integrate, freeFall. fields. js_unfold. rewrite S_INR.
    f_equal; f_equal; field. }
  rewrite E. unfold collide2. rewrite Hk3. js_unfold.
  assert (G : Exact.leb (270 * 270)
                (Ball.x (ball (freeFall i h (S n))) * Ball.x (ball (freeFall i h (S n)))
                 + Ball.y (ball (freeFall i h (S n))) * Ball.y (ball (freeFall i h (S n))))
              = false) by (apply Exact_leb_false; exact Hin).
  now rewrite G.
Qed.

Lemma freeFall_steps (i h : R) (n : nat) :
  0 <= i <= 64 -> 0 <= h <= 1 / 160 -> (n <= 16)%nat ->
  Nat.iter n (subStep2 (hoisted h (newSimSystem i))) (newSimSystem i)
  = freeFall i h n.
Proof.
  intros Hi Hh. induction n as [|n IH]; intros Hn.
  - apply newSimSystem_freeFall.
  - rewrite Nat.iter_succ, IH by lia.
    apply freeFall_step; auto.
    + unfold hoisted; fields. js_unfold. field.
    + unfold hoisted; fields. unfold newSimSystem, reset. fields.
      js_unfold. field.
Qed.

(** X16.  The first call after a reset, in exact arithmetic, for a system
    with an id from 0 to 64 and a step [dt] from 1/1000 to 1/10: the ball
    falls freely through the 16 sub-steps (no wall contact), the correction
    wants the scale [sqrt (17/16)], the clamp cuts it to 1.01, and the
    energy that [update] returns is below the baseline 2158200 by
    [54.272 * (981 * dt / 16)^2]. *)
Theorem first_update_after_reset (i dt : R) :
  0 <= i <= 64 -> 1 / 1000 <= dt <= 1 / 10 ->
  let h := dt / 16 in
  let s := fst (update dt (newSimSystem i)) in
  Ball.x (ball s) = Ball.x (ball (newSimSystem i)) /\
  Ball.y (ball s) = - 220 + 136 * 981 * h * h /\
  Ball.vx (ball s) = 0 /\
  Ball.vy (ball s) = 16 * (981 * h) * (101 / 100) /\
  Ball.angularVelocity (ball s) = 0 /\
  Container.angularVelocity (container s) = 0 /\
  snd (update dt (newSimSystem i))
  = 2158200 - 54272 / 1000 * (981 * h) * (981 * h).
Proof.
  intros Hi Hdt h s.
  assert (Hh : 0 <= h <= 1 / 160) by (unfold h; lra).
  assert (Hh' : 1 / 16000 <= h) by (unfold h; lra).
  assert (Hrun : update dt (newSimSystem i)
                 = correctEnergy (calculateEnergy (freeFall i h 16))
                                 (freeFall i h 16)).
  { unfold update.
    change (dt / ofZ (Z.of_nat SUB_STEPS))%js with h.
    change SUB_STEPS with 16%nat.
    now rewrite (freeFall_steps i h 16 Hi Hh (Nat.le_refl _)). }
  set (G := 981 * h).
  assert (HG : 981 / 16000 <= G) by (unfold G; lra).
  assert (Hc : total (calculateEnergy (freeFall i h 16))
               - pe (calculateEnergy (freeFall i h 16)) = 1280 * (G * G)).
  { unfold calculateEnergy, freeFall. fields. js_unfold. simpl INR.
    unfold G. field. }
  assert (Ht : initialEnergy (freeFall i h 16)
               - pe (calculateEnergy (freeFall i h 16)) = 1360 * (G * G)).
  { unfold calculateEnergy, freeFall. fields. js_unfold. simpl INR.
    unfold G. field. }
  assert (HGG : 3 / 1000 <= G * G) by nra.
  assert (Hscale : clampedScale (1360 * (G * G)) (1280 * (G * G)) = 101 / 100).
  { rewrite clampedScale_exact.
    replace (1360 * (G * G) / (1280 * (G * G))) with (17 / 16) by (field; lra).
    assert (Hs : 101 / 100 <= R_sqrt.sqrt (17 / 16)).
    { rewrite <- (sqrt_square (101 / 100)) by lra.
      apply sqrt_le_1_alt. lra. }
    rewrite Rmin_left by exact Hs. apply Rmax_right. lra. }
  pose proof (correctEnergy_corrects (calculateEnergy (freeFall i h 16))
                                     (freeFall i h 16)) as Hcor.
  cbv zeta in Hcor. rewrite Hc, Ht, Hscale in Hcor.
  assert (Hne : Exact.eqb (101 / 100) 1 = false).
  { unfold Exact.eqb. destruct (Req_dec_T _ _); [lra|reflexivity]. }
  rewrite Hne in Hcor.
  assert (Hpe : pe (calculateEnergy (freeFall i h 16))
                = 2158200 - 1360 * (G * G)).
  { unfold calculateEnergy, freeFall. fields. js_unfold. simpl INR.
    unfold G. field. }
  rewrite Hpe in Hcor.
  subst s. rewrite Hrun, Hcor.
  - cbn [fst snd]. unfold scaleVelocities, setVel, freeFall. fields.
    simpl INR. js_unfold.
    repeat split; try (unfold G; field).
  - unfold freeFall; fields; lra.
  - lra.
  - lra.
Qed.
End FirstCall.

(** ** The hypotheses of these theorems, met *)

Section MechanicsWitnesses.
Local Open Scope R_scope.

(** A worker with the single system 0, [update(1 / 60)]. *)
Lemma update_versions_agree_on_positions_witness :
  Forall constantsSet (systems oneSystemWorkerR) /\
  exists w' out e systems1 states e1,
    @onmessage R R_JSNumber exactStore (MsgUpdate (1 / 60) 0 None)
               oneSystemWorkerR
    = (w', Some (RUpdated 0 out e)) /\
    onmessage1 (Msg1Update (Some (1 / 60))) (systems oneSystemWorkerR)
    = (systems1, Posted1 (R1Updated states e1)) /\
    map Serialized.id states = map id (systems w') /\
    f32 out = flat_map (@compact R exactStore) states.
Proof.
  assert (C : Forall constantsSet (systems oneSystemWorkerR)).
  { repeat constructor. }
  split; [exact C|].
  exact (@update_versions_agree_on_positions
           exactStore oneSystemWorkerR (1 / 60) 0%nat None C).
Defined.

(** System 0 after [reset], sub-step size [1 / 480]. *)
Lemma substep_energy_budget_witness :
  constantsSet (newSimSystem 0) /\
  total (calculateEnergy
           (subStep2 (hoisted (1 / 480) (newSimSystem 0)) (newSimSystem 0)))
  = total (calculateEnergy (newSimSystem 0))
    - 5 * (981 * (1 / 480)) * (981 * (1 / 480))
    - 9810 * (Ball.y (ball (subStep2 (hoisted (1 / 480) (newSimSystem 0))
                                     (newSimSystem 0)))
              - Ball.y (ball (integrate (1 / 480) (GRAVITY * (1 / 480))%js
                                        (newSimSystem 0)))).
Proof.
  split; [apply reset_constants|].
  apply (substep_energy_budget (1 / 480) (newSimSystem 0)).
  apply reset_constants.
Defined.

Lemma outwardAtWall_distance :
  R_sqrt.sqrt (Ball.x (ball outwardAtWall) * Ball.x (ball outwardAtWall)
               + Ball.y (ball outwardAtWall) * Ball.y (ball outwardAtWall))
  = 300.
Proof.
  unfold outwardAtWall, setVel, setPos. fields.
  replace (0 * 0 + 300 * 300) with (300 * 300) by ring.
  apply sqrt_square. lra.
Qed.

Lemma outwardAtWall_normalVelocity :
  normalVelocity (normalX outwardAtWall) (normalY outwardAtWall) outwardAtWall
  = 4.
Proof.
  unfold normalVelocity, normalX, normalY.
  rewrite outwardAtWall_distance.
  unfold outwardAtWall, setVel, setPos. fields. field.
Qed.

(** A ball 30 beyond the wall, moving outwards. *)
Lemma collision_reverses_contact_velocity_witness :
  constantsSet (newSimSystem 0) /\
  constantsSet outwardAtWall /\
  270 * 270 <= Ball.x (ball outwardAtWall) * Ball.x (ball outwardAtWall)
               + Ball.y (ball outwardAtWall) * Ball.y (ball outwardAtWall) /\
  0 < normalVelocity (normalX outwardAtWall) (normalY outwardAtWall)
                     outwardAtWall /\
  normalVelocity (normalX outwardAtWall) (normalY outwardAtWall)
                 (collide2 (hoisted (1 / 480) (newSimSystem 0)) outwardAtWall)
  = - normalVelocity (normalX outwardAtWall) (normalY outwardAtWall)
                     outwardAtWall /\
  slipVelocity (normalX outwardAtWall) (normalY outwardAtWall)
               (collide2 (hoisted (1 / 480) (newSimSystem 0)) outwardAtWall)
  = - slipVelocity (normalX outwardAtWall) (normalY outwardAtWall)
                   outwardAtWall.
Proof.
  assert (C0 : constantsSet (newSimSystem 0)) by apply reset_constants.
  assert (C : constantsSet outwardAtWall) by (repeat split).
  assert (Hwall : 270 * 270
                  <= Ball.x (ball outwardAtWall) * Ball.x (ball outwardAtWall)
                     + Ball.y (ball outwardAtWall) * Ball.y (ball outwardAtWall)).
  { unfold outwardAtWall, setVel, setPos. fields. lra. }
  assert (Hvn : 0 < normalVelocity (normalX outwardAtWall)
                                   (normalY outwardAtWall) outwardAtWall)
    by (rewrite outwardAtWall_normalVelocity; lra).
  repeat (split; [assumption|]).
  exact (collision_reverses_contact_velocity
           (1 / 480) (newSimSystem 0) outwardAtWall C0 C Hwall Hvn).
Defined.

Lemma collision_conserves_angular_momentum_witness :
  constantsSet (newSimSystem 0) /\
  constantsSet outwardAtWall /\
  angularMomentum (collide2 (hoisted (1 / 480) (newSimSystem 0)) outwardAtWall)
  = angularMomentum
      (setPos (Ball.x (ball (collide2 (hoisted (1 / 480) (newSimSystem 0))
                                      outwardAtWall)))
              (Ball.y (ball (collide2 (hoisted (1 / 480) (newSimSystem 0))
                                      outwardAtWall)))
              outwardAtWall).
Proof.
  assert (C0 : constantsSet (newSimSystem 0)) by apply reset_constants.
  assert (C : constantsSet outwardAtWall) by (repeat split).
  repeat (split; [assumption|]).
  exact (collision_conserves_angular_momentum
           (1 / 480) (newSimSystem 0) outwardAtWall C0 C).
Defined.

(** System 0 after [reset], [update(1 / 60)]. *)
Lemma first_update_after_reset_witness :
  0 <= 0 <= 64 /\ 1 / 1000 <= 1 / 60 <= 1 / 10 /\
  snd (update (1 / 60) (newSimSystem 0))
  = 2158200 - 54272 / 1000 * (981 * (1 / 60 / 16)) * (981 * (1 / 60 / 16)).
Proof.
  assert (Hi : 0 <= 0 <= 64) by lra.
  assert (Hdt : 1 / 1000 <= 1 / 60 <= 1 / 10) by lra.
  repeat (split; [assumption|]).
  apply (first_update_after_reset 0 (1 / 60) Hi Hdt).
Defined.

(** System 0 after [reset], with a kinetic energy of 1000000 where 1010025
    is due: the scale is 1.005. *)
Lemma correctEnergy_restores_baseline_witness :
  1 / 1000000 < initialEnergy (newSimSystem 0) /\
  1 / 1000000 < total nearStats - pe nearStats /\
  1 / 1000000 < initialEnergy (newSimSystem 0) - pe nearStats /\
  99 / 100
  <= R_sqrt.sqrt ((initialEnergy (newSimSystem 0) - pe nearStats)
                  / (total nearStats - pe nearStats))
  <= 101 / 100 /\
  snd (correctEnergy nearStats (newSimSystem 0))
  = initialEnergy (newSimSystem 0).
Proof.
  assert (H1 : 1 / 1000000 < initialEnergy (newSimSystem 0))
    by (rewrite newSimSystem_baseline; lra).
  assert (H2 : 1 / 1000000 < total nearStats - pe nearStats)
    by (unfold nearStats; fields; lra).
  assert (H3 : 1 / 1000000 < initialEnergy (newSimSystem 0) - pe nearStats)
    by (rewrite newSimSystem_baseline; unfold nearStats; fields; lra).
  assert (H4 : 99 / 100
               <= R_sqrt.sqrt ((initialEnergy (newSimSystem 0) - pe nearStats)
                               / (total nearStats - pe nearStats))
               <= 101 / 100).
  { rewrite newSimSystem_baseline. unfold nearStats. fields.
    replace ((2158200 - 1148175) / (2148175 - 1148175))
      with (1005 / 1000 * (1005 / 1000)) by field.
    rewrite sqrt_square by lra. lra. }
  repeat (split; [assumption|]).
  exact (correctEnergy_restores_baseline nearStats (newSimSystem 0) H1 H2 H3 H4).
Defined.

(** System 0 after [reset], [update(1 / 60)]. *)
Lemma ball_on_wall_moves_inwards_witness :
  constantsSet (newSimSystem 0) /\
  insideOrTurned (fst (update (1 / 60) (newSimSystem 0))).
Proof.
  split; [apply reset_constants|].
  apply (ball_on_wall_moves_inwards (1 / 60) (newSimSystem 0)).
  apply reset_constants.
Defined.

(** System 0 after [reset], [update(0)]. *)
Lemma update_zero_is_the_correction_witness :
  constantsSet (newSimSystem 0) /\
  Ball.x (ball (newSimSystem 0)) * Ball.x (ball (newSimSystem 0))
  + Ball.y (ball (newSimSystem 0)) * Ball.y (ball (newSimSystem 0))
  < 270 * 270 /\
  update 0 (newSimSystem 0)
  = correctEnergy (calculateEnergy (newSimSystem 0)) (newSimSystem 0).
Proof.
  assert (C : constantsSet (newSimSystem 0)) by apply reset_constants.
  assert (Hin : Ball.x (ball (newSimSystem 0)) * Ball.x (ball (newSimSystem 0))
                + Ball.y (ball (newSimSystem 0)) * Ball.y (ball (newSimSystem 0))
                < 270 * 270).
  { unfold newSimSystem, reset. fields. js_unfold. lra. }
  repeat (split; [assumption|]).
  exact (update_zero_is_the_correction (newSimSystem 0) C Hin).
Defined.
(** System 0 after [reset] and the 16 sub-steps of [update(1 / 60)], with
    its own statistics: the ball falls at [16.35], the scale is cut to
    1.01. *)
Lemma correctEnergy_scales_by_clamped_factor_witness :
  Nat.iter SUB_STEPS (subStep2 (hoisted (1 / 960) (newSimSystem 0)))
           (newSimSystem 0) = fallen /\
  1 / 1000000 < initialEnergy fallen /\
  1 / 1000000 < total (calculateEnergy fallen) - pe (calculateEnergy fallen) /\
  1 / 1000000 < initialEnergy fallen - pe (calculateEnergy fallen) /\
  Ball.vy (ball fallen) = 16 * (981 * (1 / 960)) /\
  clampedScale (initialEnergy fallen - pe (calculateEnergy fallen))
               (total (calculateEnergy fallen) - pe (calculateEnergy fallen))
  = 101 / 100 /\
  (let stats := calculateEnergy fallen in
   let currentKE := total stats - pe stats in
   let targetKE := initialEnergy fallen - pe stats in
   let scale := clampedScale targetKE currentKE in
   let s' := fst (correctEnergy stats fallen) in
   scale = Rmax (99 / 100) (Rmin (101 / 100) (R_sqrt.sqrt (targetKE / currentKE)))
   /\ 99 / 100 <= scale <= 101 / 100
   /\ Ball.vx (ball s') = Ball.vx (ball fallen) * scale
   /\ Ball.vy (ball s') = Ball.vy (ball fallen) * scale
   /\ Ball.angularVelocity (ball s') = Ball.angularVelocity (ball fallen) * scale
   /\ Container.angularVelocity (container s')
      = Container.angularVelocity (container fallen) * scale
   /\ Rabs (Ball.vx (ball s') - Ball.vx (ball fallen))
      <= 1 / 100 * Rabs (Ball.vx (ball fallen))
   /\ Rabs (Ball.vy (ball s') - Ball.vy (ball fallen))
      <= 1 / 100 * Rabs (Ball.vy (ball fallen))
   /\ Rabs (Ball.angularVelocity (ball s') - Ball.angularVelocity (ball fallen))
      <= 1 / 100 * Rabs (Ball.angularVelocity (ball fallen))
   /\ Rabs (Container.angularVelocity (container s')
            - Container.angularVelocity (container fallen))
      <= 1 / 100 * Rabs (Container.angularVelocity (container fallen))
   /\ snd (correctEnergy stats fallen) = pe stats + currentKE * (scale * scale)).
Proof.
  assert (Hrun : Nat.iter SUB_STEPS
                   (subStep2 (hoisted (1 / 960) (newSimSystem 0)))
                   (newSimSystem 0) = fallen).
  { apply freeFall_steps; [lra|lra|apply Nat.le_refl]. }
  assert (Hk : total (calculateEnergy fallen) - pe (calculateEnergy fallen)
               = 1280 * (981 / 960 * (981 / 960))).
  { unfold fallen, calculateEnergy, freeFall. fields. js_unfold. simpl INR.
    field. }
  assert (Ht : initialEnergy fallen - pe (calculateEnergy fallen)
               = 1360 * (981 / 960 * (981 / 960))).
  { unfold fallen, calculateEnergy, freeFall. fields. js_unfold. simpl INR.
    field. }
  assert (H1 : 1 / 1000000 < initialEnergy fallen)
    by (unfold fallen, freeFall; fields; lra).
  assert (H2 : 1 / 1000000
               < total (calculateEnergy fallen) - pe (calculateEnergy fallen))
    by (rewrite Hk; lra).
  assert (H3 : 1 / 1000000 < initialEnergy fallen - pe (calculateEnergy fallen))
    by (rewrite Ht; lra).
  split; [exact Hrun|].
  repeat (split; [assumption|]).
  split; [unfold fallen, freeFall; fields; simpl INR; ring|].
  split.
  { rewrite Ht, Hk, clampedScale_exact.
    replace (1360 * (981 / 960 * (981 / 960))
             / (1280 * (981 / 960 * (981 / 960)))) with (17 / 16) by field.
    assert (Hs : 101 / 100 <= R_sqrt.sqrt (17 / 16)).
    { rewrite <- (sqrt_square (101 / 100)) by lra.
      apply sqrt_le_1_alt. lra. }
    rewrite Rmin_left by exact Hs. apply Rmax_right. lra. }
  exact (correctEnergy_scales_by_clamped_factor
           (calculateEnergy fallen) fallen H1 H2 H3).
Defined.

End MechanicsWitnesses.

(** * Binary64: the worker as it runs *)

Section Worker64.
#[local] Set Warnings "-inexact-float".

(** X17.  In binary64 the baseline of every reachable system is
    [2158200] exactly, whatever its id and its history, so the first guard
    of [correctEnergy] (no baseline, or one below [1e-6]) never stops a
    correction. *)
Theorem baseline_is_constant_binary64 (s : SimSystem float) :
  reachable s ->
  initialEnergy s = 2158200%float /\
  (falsy (initialEnergy s) || (initialEnergy s <? decimal 1 1000000))%js = false.
Proof.
  intros Hr. apply reachable_initialEnergy in Hr.
  assert (E : initialEnergy s = 2158200%float).
  { rewrite Hr. vm_compute. reflexivity. }
  rewrite E. split; [reflexivity|]. vm_compute. reflexivity.
Qed.

(** System 7 after [reset] and one [update(1)]. *)
Lemma baseline_is_constant_binary64_witness :
  reachable wallHit /\ initialEnergy wallHit = 2158200%float.
Proof.
  assert (Hr : reachable wallHit)
    by (apply reach_update, reach_new).
  split; [exact Hr|].
  exact (proj1 (baseline_is_constant_binary64 wallHit Hr)).
Defined.

(** The buffer that the worker returned, sent back with an [update]. *)
Lemma reply_buffer_is_reused_witness :
  onmessage (MsgReset 0 None) oneSystemWorker
  = (fst (onmessage (MsgReset 0 None) oneSystemWorker),
     Some (RReset 0 firstResetBuffer (F64.ofZ 2158200))) /\
  exists w2 out2 e2,
    onmessage (MsgUpdate (decimal 1 60) 1 (Some firstResetBuffer))
              (fst (onmessage (MsgReset 0 None) oneSystemWorker))
    = (w2, Some (RUpdated 1 out2 e2)) /\
    ref out2 = ref firstResetBuffer /\
    nextRef w2 = nextRef (fst (onmessage (MsgReset 0 None) oneSystemWorker)).
Proof.
  assert (E : onmessage (MsgReset 0 None) oneSystemWorker
              = (fst (onmessage (MsgReset 0 None) oneSystemWorker),
                 Some (RReset 0 firstResetBuffer (F64.ofZ 2158200))))
    by (vm_compute; reflexivity).
  split; [exact E|].
  exact (proj1 (reply_buffer_is_reused
                  oneSystemWorker (MsgReset 0 None) _ _ firstResetBuffer E
                  (or_intror (ex_intro _ 0%nat (ex_intro _ _ eq_refl))))
               (decimal 1 60) 1%nat).
Defined.

(** The worker before any [init]. *)
Lemma empty_shard_replies_witness :
  systems (initialWorker : Worker float) = [] /\
  exists w' out,
    onmessage (MsgUpdate (decimal 1 60) 7 None) (initialWorker : Worker float)
    = (w', Some (RUpdated 7 out (ofZ 0))) /\
    byteLength out = 0%nat /\ f32 out = [] /\ systems w' = [].
Proof.
  split; [reflexivity|].
  exact (proj1 (empty_shard_replies (initialWorker : Worker float) eq_refl)
               (decimal 1 60) 7%nat None).
Defined.

(** *** NaN *)

Lemma SFcompare_refl (x : spec_float) :
  x <> S754_nan -> SFcompare x x = Some Eq.
Proof.
  destruct x as [s|s| |s m e]; simpl; intros Hx;
    try congruence; try (now destruct s).
  rewrite Z.compare_refl.
  destruct s; rewrite Pos.compare_cont_refl; reflexivity.
Qed.

Lemma is_nan_spec (a : float) :
  PrimFloat.is_nan a = true <-> Prim2SF a = S754_nan.
Proof.
  unfold PrimFloat.is_nan. rewrite negb_true_iff, eqb_spec. unfold SFeqb.
  split.
  - intros E. destruct (Prim2SF a) as [s|s| |s m e] eqn:Ea; try reflexivity;
      rewrite SFcompare_refl in E by congruence; discriminate.
  - intros ->. reflexivity.
Qed.

(** An operation on NaN gives NaN, a comparison with NaN is false. *)
Lemma add_nan_l (a b : float) :
  PrimFloat.is_nan a = true -> PrimFloat.is_nan (a + b) = true.
Proof.
  rewrite !is_nan_spec, add_spec. intros ->. reflexivity.
Qed.

Lemma add_nan_r (a b : float) :
  PrimFloat.is_nan b = true -> PrimFloat.is_nan (a + b) = true.
Proof.
  rewrite !is_nan_spec, add_spec. intros ->.
  destruct (Prim2SF a) as [[]|[]| |]; reflexivity.
Qed.

Lemma sub_nan_r (a b : float) :
  PrimFloat.is_nan b = true -> PrimFloat.is_nan (a - b) = true.
Proof.
  rewrite !is_nan_spec, sub_spec. intros ->.
  destruct (Prim2SF a) as [[]|[]| |]; reflexivity.
Qed.

Lemma mul_nan_l (a b : float) :
  PrimFloat.is_nan a = true -> PrimFloat.is_nan (a * b) = true.
Proof.
  rewrite !is_nan_spec, mul_spec. intros ->. reflexivity.
Qed.

Lemma mul_nan_r (a b : float) :
  PrimFloat.is_nan b = true -> PrimFloat.is_nan (a * b) = true.
Proof.
  rewrite !is_nan_spec, mul_spec. intros ->.
  destruct (Prim2SF a) as [[]|[]| |]; reflexivity.
Qed.

Lemma div_nan_l (a b : float) :
  PrimFloat.is_nan a = true -> PrimFloat.is_nan (a / b) = true.
Proof.
  rewrite !is_nan_spec, div_spec. intros ->. reflexivity.
Qed.

Lemma leb_nan_r (a b : float) :
  PrimFloat.is_nan b = true -> PrimFloat.leb a b = false.
Proof.
  rewrite is_nan_spec, leb_spec. intros ->. unfold SFleb.
  destruct (Prim2SF a) as [[]|[]| |[]]; reflexivity.
Qed.

Lemma ltb_nan_r (a b : float) :
  PrimFloat.is_nan b = true -> PrimFloat.ltb a b = false.
Proof.
  rewrite is_nan_spec, ltb_spec. intros ->. unfold SFltb.
  destruct (Prim2SF a) as [[]|[]| |[]]; reflexivity.
Qed.

Lemma fround_nan (a : float) :
  PrimFloat.is_nan a = true -> F64.fround a = a.
Proof.
  rewrite is_nan_spec. unfold F64.fround. now intros ->.
Qed.

(** [update(NaN)]: the last sub-step alone turns position and angles into
    NaN, the collision test fails on them, and the correction is skipped. *)
Lemma update_nan (dt : float) (s : SimSystem float) :
  PrimFloat.is_nan dt = true ->
  lostToNaN (fst (update dt s)) /\ PrimFloat.is_nan (snd (update dt s)) = true.
Proof.
  intros Hdt. unfold update.
  set (h := (dt / ofZ (Z.of_nat SUB_STEPS))%js).
  assert (Hh : PrimFloat.is_nan h = true) by (apply div_nan_l; exact Hdt).
  set (k := hoisted h s).
  change SUB_STEPS with (S 15). rewrite Nat.iter_succ.
  set (s15 := Nat.iter 15 (subStep2 k) s).
  unfold subStep2.
  change (subDt k) with h. change (gravitySubDt k) with (GRAVITY * h)%js.
  set (si := integrate h (GRAVITY * h)%js s15).
  assert (Hx : PrimFloat.is_nan (Ball.x (ball si)) = true)
    by (apply add_nan_r, mul_nan_r; exact Hh).
  assert (Hy : PrimFloat.is_nan (Ball.y (ball si)) = true)
    by (apply add_nan_r, mul_nan_r; exact Hh).
  assert (Ha : PrimFloat.is_nan (Ball.angle (ball si)) = true)
    by (apply add_nan_r, mul_nan_r; exact Hh).
  assert (Hc : PrimFloat.is_nan (Container.angle (container si)) = true)
    by (apply add_nan_r, mul_nan_r; exact Hh).
  assert (Hcol : collide2 k si = si).
  { unfold collide2.
    assert (G : (Ball.x (ball si) * Ball.x (ball si)
                 + Ball.y (ball si) * Ball.y (ball si) >=? maxDistSq k)%js
                = false).
    { apply leb_nan_r, add_nan_l, mul_nan_l. exact Hx. }
    now rewrite G. }
  rewrite Hcol. clearbody si.
  assert (Hpe : PrimFloat.is_nan (pe (calculateEnergy si)) = true)
    by (apply mul_nan_r; exact Hy).
  assert (Htot : PrimFloat.is_nan (total (calculateEnergy si)) = true)
    by (apply add_nan_r; exact Hpe).
  assert (Hrun : correctEnergy (calculateEnergy si) si
                 = (si, total (calculateEnergy si))).
  { unfold correctEnergy.
    destruct (falsy (initialEnergy si)
              || (initialEnergy si <? decimal 1 1000000)%js); [reflexivity|].
    assert (G : (initialEnergy si - pe (calculateEnergy si)
                 >? decimal 1 1000000)%js = false).
    { apply ltb_nan_r.
      change (PrimFloat.is_nan
                (PrimFloat.sub (initialEnergy si) (pe (calculateEnergy si)))
              = true).
      apply sub_nan_r. exact Hpe. }
    now rewrite G. }
  rewrite Hrun. cbn [fst snd]. repeat split; assumption.
Qed.

Lemma fold_nan (dt : float) (ss : list (SimSystem float)) (t : float) :
  PrimFloat.is_nan dt = true ->
  PrimFloat.is_nan t = true \/ ss <> [] ->
  PrimFloat.is_nan (fold_left (fun t s => t + snd (update dt s))%js ss t) = true.
Proof.
  intros Hdt. revert t. induction ss as [|s ss IH]; intros t Ht.
  - destruct Ht as [Ht|Ht]; [exact Ht|congruence].
  - cbn [fold_left]. apply IH. left.
    apply add_nan_r. now apply update_nan.
Qed.

(** X18.  An [update] whose [dt] is NaN (which is what a message without
    [dt] amounts to) loses the state, in binary64: every system is left
    with NaN for [ball.x], [ball.y], [ball.angle] and [container.angle],
    every float of the buffer is NaN, and so is the energy reported when
    the worker has a system. *)
Theorem update_without_dt_loses_state
  (w : Worker float) (dt : float) (batchId : nat)
  (given : option (ArrayBuffer float)) :
  PrimFloat.is_nan dt = true ->
  exists w' out e,
    onmessage (MsgUpdate dt batchId given) w
    = (w', Some (RUpdated batchId out e)) /\
    Forall lostToNaN (systems w') /\
    Forall (fun v => PrimFloat.is_nan v = true) (f32 out) /\
    (systems w <> [] -> PrimFloat.is_nan e = true).
Proof.
  intros Hdt.
  destruct (onmessage_update w dt batchId given) as [out [E [Hf _]]].
  do 3 eexists. split; [exact E|]. cbn [systems].
  assert (Hlost : Forall lostToNaN (map (fun s => fst (update dt s)) (systems w))).
  { apply Forall_map, Forall_forall. intros s _. now apply update_nan. }
  split; [exact Hlost|]. split.
  - rewrite Hf. revert Hlost.
    generalize (map (fun s => fst (update dt s)) (systems w)).
    intros ss Hss. induction Hss as [|s ss (Hx & Hy & Ha & Hc) _ IH];
      [constructor|].
    unfold layout. cbn [flat_map slots fround float_Float32 app].
    rewrite !fround_nan by assumption.
    repeat constructor; try assumption.
  - intros Hne. apply fold_nan; auto.
Qed.

(** The worker with system 0, [update] with [dt = NaN]. *)
Lemma update_without_dt_loses_state_witness :
  PrimFloat.is_nan nan = true /\
  exists w' out e,
    onmessage (MsgUpdate nan 0 None) oneSystemWorker
    = (w', Some (RUpdated 0 out e)) /\
    Forall lostToNaN (systems w') /\
    Forall (fun v => PrimFloat.is_nan v = true) (f32 out) /\
    (systems oneSystemWorker <> [] -> PrimFloat.is_nan e = true).
Proof.
  split; [reflexivity|].
  exact (update_without_dt_loses_state oneSystemWorker nan 0%nat None eq_refl).
Defined.
End Worker64.

(** * The correction in binary64: the 1% bound and the finiteness check *)

Section Finiteness.
#[local] Set Warnings "-inexact-float".








(** The first version has no finiteness check: on the overflowed state the
    scale is NaN and the velocity of the ball becomes NaN. *)
Example first_version_has_no_finiteness_check :
  Ball.vx (ball overflowedSystem) = 0x1p+600%float /\
  PrimFloat.is_nan (Ball.vx (ball (correctEnergy1 overflowedSystem))) = true /\
  Ball.vx (ball (fst (correctEnergy (calculateEnergy overflowedSystem)
                                    overflowedSystem)))
  = 0x1p+600%float.
Proof. vm_compute. repeat split. Qed.

(** C2 as stated fails in binary64: [new SimSystem(0)] and [update(0.01)].
    After the 16 sub-steps the guards pass and the scale is 1.01; the
    product [vy * 1.01] is rounded up, and [ball.vy] goes from
    [9.8100000000000005] to [9.908100000000001], which on the exact values
    is more than 1% of its magnitude. *)
Lemma velocity_change_above_one_percent_counterexample :
  reachable (newSimSystem (F64.ofZ 0)) /\
  update (decimal 1 100) (newSimSystem (F64.ofZ 0))
  = correctEnergy (calculateEnergy firstFall) firstFall /\
  (falsy (initialEnergy firstFall)
   || (initialEnergy firstFall <? decimal 1 1000000))%js = false /\
  ((initialEnergy firstFall - pe (calculateEnergy firstFall)
    >? decimal 1 1000000)
   && (total (calculateEnergy firstFall) - pe (calculateEnergy firstFall)
       >? decimal 1 1000000))%js = true /\
  clampedScale
    (initialEnergy firstFall - pe (calculateEnergy firstFall))%js
    (total (calculateEnergy firstFall) - pe (calculateEnergy firstFall))%js
  = 1.01%float /\
  Ball.vy (ball firstFall) = 9.8100000000000005%float /\
  Ball.vy (ball (fst (update (decimal 1 100) (newSimSystem (F64.ofZ 0)))))
  = 9.908100000000001%float /\
  F64.dyadic 9.8100000000000005 = Some (5522539043063071, -49)%Z /\
  F64.dyadic 9.908100000000001 = Some (5577764433493702, -49)%Z /\
  moreThanOnePercent 9.8100000000000005 9.908100000000001 = true.
Proof.
  split; [exact (reach_new (F64.ofZ 0))|].
  split; [unfold update, firstFall; reflexivity|].
  vm_compute. repeat split.
Qed.
End Finiteness.
